(** * enterSelects: the location-bar result-selection controller of lib/main.js

    A shallow embedding of [lib/main.js] and the properties of its keyword
    cache, input classification, auto-selection wrapper and key handler.

    Conventions of the embedding
    - a JavaScript string is the list of its UTF-16 code units;
    - the services the file calls but does not define ([Services.io],
      [Services.eTLD], [Services.search], the controller's status constant)
      are variables of the section [EnterSelects];
    - the objects of the browser window ([gURLBar], [popup], the controller)
      form the record [Host]; the variables captured by the closure passed to
      [watchWindows] form the record [Closure]; the module-level
      [cachedKeywords] map together with the [PlacesUtils.keywords.fetch]
      promises that have not settled yet form the record [Keywords];
    - callbacks handed to [defer] are kept as data ([Task]) in a queue and run
      by [run_task];
    - calls into the browser whose effect the file does not see
      ([handleEnter], [onTextEntered], [handleKeyNavigation]) are appended to
      a log of [HostCall]s. *)

From stdpp Require Import gmap strings list fin_maps.
From Stdlib Require Import QArith Qcanon.
From Stdlib Require PrimFloat FloatOps SpecFloat Uint63.

Local Open Scope Z_scope.

(** ** JavaScript strings *)

Module JS.

(** A string is a sequence of UTF-16 code units. *)
Abbreviation jsstring := (list N).

(** Code units of a literal (one unit per character below U+0100). *)
Fixpoint str (s : string) : jsstring :=
  match s with
  | EmptyString => []
  | String c s' => Ascii.N_of_ascii c :: str s'
  end.

(** The one character matched by the regular expression [/ /]. *)
Definition is_space (c : N) : bool := (c =? 32)%N.

(** [\s] of a regular expression, which is also what [String.prototype.trim]
    strips: WhiteSpace and LineTerminator of ECMAScript. *)
Definition is_whitespace (c : N) : bool :=
  ((9 <=? c) && (c <=? 13) || (c =? 32) || (c =? 160) || (c =? 5760)
   || (8192 <=? c) && (c <=? 8202) || (c =? 8232) || (c =? 8233)
   || (c =? 8239) || (c =? 8287) || (c =? 12288) || (c =? 65279))%N.

Fixpoint drop_while (p : N -> bool) (s : jsstring) : jsstring :=
  match s with
  | [] => []
  | c :: s' => if p c then drop_while p s' else s
  end.

Fixpoint take_while (p : N -> bool) (s : jsstring) : jsstring :=
  match s with
  | [] => []
  | c :: s' => if p c then c :: take_while p s' else []
  end.

(** [s.trim()] *)
Definition trim (s : jsstring) : jsstring :=
  reverse (drop_while is_whitespace (reverse (drop_while is_whitespace s))).

(** [s.slice(0, n)] for a non-negative integer [n]. *)
Definition slice0 (n : nat) (s : jsstring) : jsstring := take n s.

(** [s.match(/ /) == null] *)
Definition no_space (s : jsstring) : bool := negb (existsb is_space s).

(** No character of [s] is matched by [\s]. *)
Definition no_whitespace (s : jsstring) : bool :=
  negb (existsb is_whitespace s).

(** [s.split(/\s+/)[0]]: the characters before the first run of
    whitespace (the empty string when [s] starts with whitespace). *)
Definition first_word (s : jsstring) : jsstring :=
  take_while (fun c => negb (is_whitespace c)) s.

(** [a == b] on two strings. *)
Definition eqb (a b : jsstring) : bool := bool_decide (a = b).

End JS.

Import JS.

(** ** Numbers that reach [defer] as a delay

    [MAX_WAIT_FOR_RESULTS / enteredSearch.length] is a division of Numbers,
    which are IEEE 754 binary64 values.  The embedding keeps the value of the
    resulting Number as a rational: the quotient rounded to 53 significant
    bits, to nearest with ties to even, and [+Infinity] for the division of a
    positive Number by zero.  Both operands are integers below 2^53 (a
    string has fewer than 2^53 code units), so they are Numbers themselves
    and the quotient stays far inside the range in which binary64 has its
    full precision. *)

(** [p / q] rounded to the nearest integer, ties to the even one. *)
Definition round_half_even (p q : Z) : Z :=
  let d := p / q in
  let r := p mod q in
  if 2 * r <? q then d
  else if q <? 2 * r then d + 1
  else if Z.even d then d else d + 1.

(** The [k] for which [a / n * 2 ^ k] lies between [2 ^ 52] and [2 ^ 53],
    the range of the 53-bit significand. *)
Definition binary64_shift (a n : Z) : Z :=
  let s := Z.log2_up n in
  52 + s - Z.log2 (a * 2 ^ s / n).

(** The value of the Number [a / n]: a significand of 53 bits, rounded, at
    the exponent of the quotient. *)
Definition binary64_div (a n : positive) : Qc :=
  let k := binary64_shift (Zpos a) (Zpos n) in
  if 0 <=? k
  then Q2Qc (round_half_even (Zpos a * 2 ^ k) (Zpos n) # Z.to_pos (2 ^ k))
  else Q2Qc (inject_Z
               (round_half_even (Zpos a) (Zpos n * 2 ^ (- k)) * 2 ^ (- k))).

Inductive Millis :=
  | Finite (ms : Qc)
  | PosInfinity.

(** [a / n] for a positive [a] and a length [n]. *)
Definition div_by_length (a : positive) (n : nat) : Millis :=
  match n with
  | O => PosInfinity
  | S _ => Finite (binary64_div a (Pos.of_nat n))
  end.

(** The value of a float of the kernel, which is a binary64 like a Number;
    used to compare [div_by_length] with the division of the machine. *)
Definition float_value (f : PrimFloat.float) : option Millis :=
  match FloatOps.Prim2SF f with
  | SpecFloat.S754_zero _ => Some (Finite (Q2Qc 0))
  | SpecFloat.S754_infinity false => Some PosInfinity
  | SpecFloat.S754_finite false m e =>
      Some (Finite (if 0 <=? e
                    then Q2Qc (inject_Z (Zpos m * 2 ^ e))
                    else Q2Qc (Zpos m # Z.to_pos (2 ^ (- e)))))
  | _ => None
  end.

(** [y] is the delay [x]. *)
Definition same_millis (x : Millis) (y : option Millis) : bool :=
  match x, y with
  | Finite a, Some (Finite b) => Qeq_bool a b
  | PosInfinity, Some PosInfinity => true
  | _, _ => false
  end.

(** [a / n] as the machine computes it on floats. *)
Definition float_div_by_length (a : positive) (n : nat) : option Millis :=
  float_value
    (PrimFloat.div (PrimFloat.of_uint63 (Uint63.of_Z (Zpos a)))
                   (PrimFloat.of_uint63 (Uint63.of_Z (Z.of_nat n)))).

(** [x <= y] on delays. *)
Definition Millis_le (x y : Millis) : Prop :=
  match x, y with
  | _, PosInfinity => True
  | PosInfinity, Finite _ => False
  | Finite a, Finite b => (a <= b)%Qc
  end.

(** Milliseconds to wait for results after pressing enter. *)
Definition MAX_WAIT_FOR_RESULTS : positive := 350.

(** ** The keyword cache *)

(** [cachedKeywords] and the [PlacesUtils.keywords.fetch(keyword)] promises
    whose [then] callback has not run yet, oldest first. *)
Record Keywords := mkKeywords {
  cachedKeywords : gmap jsstring bool;
  fetching : list jsstring
}.

Definition no_keywords : Keywords := mkKeywords ∅ [].

(** The [then] callback of a fetch: [cachedKeywords.set(keyword, !!result)],
    where [found] is [!!result]. *)
Definition fetch_then (keyword : jsstring) (found : bool)
    (cache : gmap jsstring bool) : gmap jsstring bool :=
  <[keyword := found]> cache.

(** Removes the element at position [i]. *)
Definition remove_nth {A} (i : nat) (l : list A) : list A :=
  take i l ++ drop (S i) l.

(** The [i]-th outstanding fetch settles with [found = !!result]; nothing
    happens when there is no such promise. *)
Definition resolve_fetch (i : nat) (found : bool) (k : Keywords) : Keywords :=
  match fetching k !! i with
  | Some keyword =>
      mkKeywords (fetch_then keyword found (cachedKeywords k))
                 (remove_nth i (fetching k))
  | None => k
  end.

(** The pre-fetch at load time:
    [rows.forEach(row => cachedKeywords.set(row.getResultByName("keyword"), true))]. *)
Definition prefetch (rows : list jsstring) (k : Keywords) : Keywords :=
  mkKeywords
    (fold_left (fun cache row => <[row := true]> cache) rows (cachedKeywords k))
    (fetching k).

(** ** The browser window *)

(** What the code reads and writes on [gURLBar], [popup] and
    [gURLBar.controller].  A property is a field: a write changes the field
    written and nothing else, and whatever else the browser does is an event
    of its own ([Browser] below).  [gURLBar.textValue] is the accessor of
    nsIAutoCompleteInput for the text that [gURLBar.value] holds, so the two
    share the field [value]. *)
Record Host := mkHost {
  value : jsstring;
  selectionStart : nat;
  selectionEnd : nat;
  popupOpen : bool;
  selectedIndex : Z;        (* popup.selectedIndex, -1 when nothing is selected *)
  _matchCount : nat;        (* popup._matchCount *)
  matchCount : nat;         (* controller.matchCount *)
  searchStatus : nat        (* controller.searchStatus *)
}.

Definition set_selectedIndex (i : Z) (h : Host) : Host :=
  mkHost (value h) (selectionStart h) (selectionEnd h) (popupOpen h) i
         (_matchCount h) (matchCount h) (searchStatus h).

Definition set_textValue (v : jsstring) (h : Host) : Host :=
  mkHost v (selectionStart h) (selectionEnd h) (popupOpen h) (selectedIndex h)
         (_matchCount h) (matchCount h) (searchStatus h).

Definition set_selectionStart (n : nat) (h : Host) : Host :=
  mkHost (value h) n (selectionEnd h) (popupOpen h) (selectedIndex h)
         (_matchCount h) (matchCount h) (searchStatus h).

(** The variables of the closure passed to [watchWindows]. *)
Record Closure := mkClosure {
  selectNext : bool;       (* remember if the next result should be selected *)
  origSearch : jsstring;   (* values to restore if necessary *)
  origValue : jsstring
}.

Definition init_closure : Closure := mkClosure false [] [].

(** Automatically select the 1th result (default search is 0th result). *)
Definition targetIndex : Z := 1.

Inductive KeyCode :=
  | DOM_VK_LEFT | DOM_VK_RIGHT | DOM_VK_HOME
  | DOM_VK_UP | DOM_VK_DOWN | DOM_VK_PAGE_UP | DOM_VK_PAGE_DOWN | DOM_VK_TAB
  | DOM_VK_RETURN
  | DOM_VK_other (code : nat).

Record KeyEvent := mkKeyEvent {
  keyCode : KeyCode;
  shiftKey : bool;
  ctrlKey : bool;
  metaKey : bool
}.

(** Calls whose effect is the browser's own. *)
Inductive HostCall :=
  | preventDefault                          (* event.preventDefault() *)
  | handleEnter (arg : bool)                (* gURLBar.controller.handleEnter(true) *)
  | onTextEntered                           (* gURLBar.onTextEntered() *)
  | handleKeyNavigation (key : KeyCode).    (* controller.handleKeyNavigation(key) *)

(** The three callbacks that the code hands to [defer]. *)
Inductive Task :=
  | SelectedEnter                           (* _ => gURLBar.controller.handleEnter(true) *)
  | RestoreCompletion                       (* after a vertical movement key *)
  | LoadSearch (enteredSearch : jsstring).  (* after Enter without results *)

(** A pending [defer(callback, delay)]; [delay] is [None] when [defer] got
    one argument. *)
Record Timer := mkTimer {
  task : Task;
  delay : option Millis
}.

Record State := mkState {
  host : Host;
  vars : Closure;
  keywords : Keywords;
  timers : list Timer;
  calls : list HostCall
}.

Definition set_host (h : Host) (st : State) : State :=
  mkState h (vars st) (keywords st) (timers st) (calls st).

Definition set_vars (c : Closure) (st : State) : State :=
  mkState (host st) c (keywords st) (timers st) (calls st).

Definition set_keywords (k : Keywords) (st : State) : State :=
  mkState (host st) (vars st) k (timers st) (calls st).

Definition set_timers (t : list Timer) (st : State) : State :=
  mkState (host st) (vars st) (keywords st) t (calls st).

(** Records a call into the browser. *)
Definition call (c : HostCall) (st : State) : State :=
  mkState (host st) (vars st) (keywords st) (timers st) (calls st ++ [c]).

(** Modelled from the spec: [defer] of [lib/makeWindowHelpers], which is not
    part of the sources at hand.  The spec's DeferredScheduler is a one-shot
    delayed callback: [schedule(callback, delayMs)] queues the callback, and
    [schedule(callback)] queues it for the next turn of the event loop. *)
Definition defer (callback : Task) (delayMs : option Millis) (st : State) : State :=
  set_timers (timers st ++ [mkTimer callback delayMs]) st.

(** Modelled from the spec: a queued callback may run once [elapsed]
    milliseconds have passed since it was scheduled when [elapsed] is at
    least its delay; without a delay it may run at the next turn.  The spec
    does not say what becomes of a callback whose delay is infinite; it is
    kept in the queue here, and no property below rests on that. *)
Definition due (elapsed : Qc) (delayMs : option Millis) : Prop :=
  match delayMs with
  | None => True
  | Some d => Millis_le d (Finite elapsed)
  end.

(** Figure out what part the user actually typed. *)
Definition getTyped (h : Host) : jsstring :=
  let v := value h in
  let v := if (selectionEnd h =? length v)%nat
           then slice0 (selectionStart h) v
           else v in
  trim v.

(** What [willHandle] returns: the URI object, the base domain, or a boolean. *)
Inductive Returned (U : Type) :=
  | RetURI (uri : U)
  | RetDomain (domain : jsstring)
  | RetBool (b : bool).
Arguments RetURI {U} uri.
Arguments RetDomain {U} domain.
Arguments RetBool {U} b.

(** [if (v)]: objects are truthy, a string is truthy unless it is empty. *)
Definition truthy {U} (v : Returned U) : bool :=
  match v with
  | RetURI _ => true
  | RetDomain d => negb (bool_decide (d = []))
  | RetBool b => b
  end.

(** What can happen to the keyword cache: a call of [isKeyword] (from any
    window), the settling of a fetch (fulfilled with a result, or rejected,
    in which case no callback runs), and the arrival of the pre-fetched rows. *)
Inductive CacheOp :=
  | IsKeyword (keyword : jsstring)
  | Settles (i : nat) (found : bool)
  | Rejects (i : nat)
  | Prefetched (rows : list jsstring).

(** What can happen to a window. *)
Inductive Event :=
  | Appended (orig : Host -> Host)    (* popup._appendCurrentResult() is called *)
  | KeyDown (event : KeyEvent)        (* a keydown event reaches gURLBar *)
  | Fires (i : nat) (elapsed : Qc)    (* the i-th queued callback runs *)
  | Browser (change : Host -> Host)   (* the user or the browser changes the window *)
  | Cache (op : CacheOp).             (* the shared cache changes behind the window *)

(** ** Sample services and windows

    Concrete stand-ins for the services, used to run the definitions. *)

Fixpoint starts_with (prefix s : jsstring) : bool :=
  match prefix, s with
  | [], _ => true
  | p :: prefix', c :: s' => (p =? c)%N && starts_with prefix' s'
  | _ :: _, [] => false
  end.

(** The text [http://a.b/<TAB>c]. *)
Definition tabbed : jsstring := str "http://a.b/" ++ [9%N] ++ str "c".

(** A URI parser that accepts what starts with [http://]; like the browser's
    it drops tabs and line breaks from the spec it keeps. *)
Definition sample_newURI (spec : jsstring) : option jsstring :=
  if starts_with (str "http://") spec
  then Some (filter (fun c => c <> 9%N /\ c <> 10%N /\ c <> 13%N) spec)
  else None.

(** A public-suffix service that knows one host. *)
Definition sample_getBaseDomainFromHost (h : jsstring) : option jsstring :=
  if JS.eqb h (str "example.com/page") then Some (str "example.com") else None.

(** A search service without aliases. *)
Definition sample_getEngineByAlias (alias : jsstring) : option unit := None.

(** A search service with the alias [weather]. *)
Definition weather_getEngineByAlias (alias : jsstring) : option unit :=
  if JS.eqb alias (str "weather") then Some tt else None.

(** [nsIAutoCompleteController.STATUS_SEARCHING] *)
Definition sample_STATUS_SEARCHING : nat := 2.

(** A location bar holding [v] with the selection from [s] to [e], the popup
    open with [n] results of a search that is still running, nothing
    selected. *)
Definition sample_host (v : jsstring) (s e n : nat) : Host :=
  mkHost v s e true (-1) n n 2.

(** A window right after [watchWindows] attached the code to it. *)
Definition init_state (h : Host) (k : Keywords) : State :=
  mkState h init_closure k [] [].

(** The browser's own [_appendCurrentResult], reduced to what the code sees
    of it: one more result. *)
Definition one_more_result (h : Host) : Host :=
  mkHost (value h) (selectionStart h) (selectionEnd h) (popupOpen h)
         (selectedIndex h) (S (_matchCount h)) (S (matchCount h))
         (searchStatus h).

(** The Enter key without modifiers, and two keys of movement. *)
Definition enter_key : KeyEvent := mkKeyEvent DOM_VK_RETURN false false false.
Definition left_key : KeyEvent := mkKeyEvent DOM_VK_LEFT false false false.
Definition down_key : KeyEvent := mkKeyEvent DOM_VK_DOWN false false false.

(** The browser moves the selection out of the popup and shows the typed
    text ["ca"] again. *)
Definition leave_popup (h : Host) : Host :=
  set_selectedIndex (-1) (set_textValue (str "ca") h).

(** The user types ["cats"] into the location bar. *)
Definition type_cats (h : Host) : Host :=
  mkHost (str "cats") 4 4 (popupOpen h) (selectedIndex h) (_matchCount h)
         (matchCount h) (searchStatus h).

Section EnterSelects.

(** [Services.io.newURI(spec, null, null)], [None] when it throws. *)
Context {nsIURI : Type}.
Variable newURI : jsstring -> option nsIURI.

(** [Services.eTLD.getBaseDomainFromHost(host)], [None] when it throws. *)
Variable getBaseDomainFromHost : jsstring -> option jsstring.

(** [Services.search.getEngineByAlias(alias)], [None] for [null]. *)
Context {nsISearchEngine : Type}.
Variable getEngineByAlias : jsstring -> option nsISearchEngine.

(** [controller.STATUS_SEARCHING] *)
Variable STATUS_SEARCHING : nat.

Definition isKeyword (keyword : jsstring) (k : Keywords) : bool * Keywords :=
  (* Immediately handle the keyword if we've checked it before *)
  match cachedKeywords k !! keyword with
  | Some known => (known, k)
  | None =>
      (* Check for search engine keyword and remember if it is *)
      match getEngineByAlias keyword with
      | Some _ =>
          (true, mkKeywords (<[keyword := true]> (cachedKeywords k)) (fetching k))
      | None =>
          (* Asynchronously check for bookmark keywords; just return false
             immediately *)
          (false, mkKeywords (cachedKeywords k) (fetching k ++ [keyword]))
      end
  end.

Definition cache_step (op : CacheOp) (k : Keywords) : Keywords :=
  match op with
  | IsKeyword keyword => snd (isKeyword keyword k)
  | Settles i found => resolve_fetch i found k
  | Rejects i => mkKeywords (cachedKeywords k) (remove_nth i (fetching k))
  | Prefetched rows => prefetch rows k
  end.

Definition cache_run (ops : list CacheOp) (k : Keywords) : Keywords :=
  fold_left (fun k op => cache_step op k) ops k.

(** Determine if the location bar frontend will take care of the input. *)
Definition willHandle (search : jsstring) (k : Keywords)
    : Returned nsIURI * Keywords :=
  (* Check if the first word is a keyword (search or bookmark) *)
  let first_word_is_keyword : Returned nsIURI * Keywords :=
    let (known, k') := isKeyword (first_word search) k in
    (RetBool known, k') in
  (* Potentially it's a url if there's no spaces *)
  if no_space search then
    match newURI search with
    | Some uri => (RetURI uri, k)
    | None =>
        match getBaseDomainFromHost search with
        | Some domain => (RetDomain domain, k)
        | None => first_word_is_keyword
        end
    end
  else first_word_is_keyword.

(** The replacement of [popup._appendCurrentResult]; [orig] is the
    browser's own routine. *)
Definition appendCurrentResult (orig : Host -> Host) (st : State) : State :=
  (* Run the original first to get results added *)
  let st := set_host (orig (host st)) st in
  (* Don't bother if something is already selected *)
  if (targetIndex <=? selectedIndex (host st))%Z then st else
  (* Make sure there's results *)
  if (_matchCount (host st) =? 0)%nat then st else
  (* Don't auto-select if we have a user-typed url *)
  let currentSearch := getTyped (host st) in
  let (handled, k) := willHandle currentSearch (keywords st) in
  let st := set_keywords k st in
  if truthy handled then st else
  (* Store these to restore if necessary when moving out of the popup *)
  let st := set_vars (mkClosure (selectNext (vars st)) currentSearch
                                (value (host st))) st in
  let st := set_host (set_selectedIndex targetIndex (host st)) st in
  if selectNext (vars st) then
    defer SelectedEnter None
      (set_vars (mkClosure false (origSearch (vars st)) (origValue (vars st))) st)
  else st.

(** The [keydown] listener of [gURLBar]. *)
Definition keydown (event : KeyEvent) (st : State) : State :=
  match keyCode event with
  (* For horizontal movement keys, unselect the first item to allow editing *)
  | DOM_VK_LEFT | DOM_VK_RIGHT | DOM_VK_HOME =>
      set_host (set_selectedIndex (-1) (host st)) st
  (* For vertical movement keys, restore the inline completion if necessary *)
  | DOM_VK_UP | DOM_VK_DOWN | DOM_VK_PAGE_UP | DOM_VK_PAGE_DOWN | DOM_VK_TAB =>
      defer RestoreCompletion None st
  | DOM_VK_RETURN =>
      (* Ignore special key combinations *)
      if shiftKey event || ctrlKey event || metaKey event then st else
      (* Detect if there's no results so yet, so we're waiting for more *)
      if (matchCount (host st) =? 0)%nat
         && (searchStatus (host st) <=? STATUS_SEARCHING)%nat
      then
        (* If the location bar will handle the search, don't bother waiting *)
        let enteredSearch := getTyped (host st) in
        let (handled, k) := willHandle enteredSearch (keywords st) in
        let st := set_keywords k st in
        if truthy handled then st else
        (* Stop the location bar from handling search *)
        let st := call preventDefault st in
        (* Remember that the next result will be selected *)
        let st := set_vars (mkClosure true (origSearch (vars st))
                                      (origValue (vars st))) st in
        (* Wait a shorter amount of time the more the user types *)
        defer (LoadSearch enteredSearch)
              (Some (div_by_length MAX_WAIT_FOR_RESULTS (length enteredSearch)))
              st
      else
        (* For the auto-selected first result, act as if the user pressed down *)
        if (selectedIndex (host st) =? targetIndex)%Z then
          call (handleKeyNavigation DOM_VK_DOWN)
               (set_host (set_selectedIndex (targetIndex - 1) (host st)) st)
        else st
  | DOM_VK_other _ => st
  end.

(** The bodies of the callbacks handed to [defer]. *)
Definition run_task (t : Task) (st : State) : State :=
  match t with
  | SelectedEnter => call (handleEnter true) st
  | RestoreCompletion =>
      (* If we have nothing selected in the popup, restore the completion *)
      if (selectedIndex (host st) =? -1)%Z && popupOpen (host st) then
        set_host (set_selectionStart (length (origSearch (vars st)))
                    (set_textValue (origValue (vars st)) (host st))) st
      else st
  | LoadSearch enteredSearch =>
      (* In-case there are no results after a short wait, just load search *)
      if JS.eqb enteredSearch (getTyped (host st))
         && (matchCount (host st) =? 0)%nat
      then
        call onTextEntered
             (set_vars (mkClosure false (origSearch (vars st))
                                  (origValue (vars st))) st)
      else st
  end.

(** One turn of the event loop. *)
Inductive step : State -> Event -> State -> Prop :=
  | step_appended st orig :
      step st (Appended orig) (appendCurrentResult orig st)
  | step_keydown st event :
      step st (KeyDown event) (keydown event st)
  | step_fires st i elapsed tm :
      timers st !! i = Some tm ->
      due elapsed (delay tm) ->
      step st (Fires i elapsed)
           (run_task (task tm) (set_timers (remove_nth i (timers st)) st))
  | step_browser st change :
      step st (Browser change) (set_host (change (host st)) st)
  | step_cache st op :
      step st (Cache op) (set_keywords (cache_step op (keywords st)) st).

(** A run of the event loop with the events it handled. *)
Inductive run : State -> list Event -> State -> Prop :=
  | run_nil st : run st [] st
  | run_cons st e st' es st'' :
      step st e st' -> run st' es st'' -> run st (e :: es) st''.

(** *** Vocabulary of the properties *)

(** The selection index after each of a series of calls of the wrapper. *)
Fixpoint index_history (origs : list (Host -> Host)) (st : State) : list Z :=
  match origs with
  | [] => []
  | orig :: origs' =>
      let st' := appendCurrentResult orig st in
      selectedIndex (host st') :: index_history origs' st'
  end.

(** How often a series of indices, read after [prev], changes. *)
Fixpoint transitions (prev : Z) (indices : list Z) : nat :=
  match indices with
  | [] => O
  | i :: indices' =>
      ((if bool_decide (i = prev) then 0 else 1) + transitions i indices')%nat
  end.

(** The wrapper passes its three checks and selects. *)
Definition auto_selects (orig : Host -> Host) (st : State) : bool :=
  let h := orig (host st) in
  negb (targetIndex <=? selectedIndex h)%Z
  && negb (_matchCount h =? 0)%nat
  && negb (truthy (fst (willHandle (getTyped h) (keywords st)))).

(** A run in which the wrapper never selects. *)
Inductive run_unselected : State -> list Event -> State -> Prop :=
  | run_unselected_nil st : run_unselected st [] st
  | run_unselected_cons st e st' es st'' :
      step st e st' ->
      (forall orig, e = Appended orig -> auto_selects orig st = false) ->
      run_unselected st' es st'' ->
      run_unselected st (e :: es) st''.

(** How many fetches of [keyword] have not settled. *)
Definition outstanding (keyword : jsstring) (k : Keywords) : nat :=
  length (filter (fun x => x = keyword) (fetching k)).

(** Every write that [ops] make to the entry of [keyword] from outside
    [isKeyword] writes [known]: the fetches of [keyword] that settle report
    [known], and rows with [keyword] arrive only if [known] is [true]. *)
Fixpoint agrees (keyword : jsstring) (known : bool) (ops : list CacheOp)
    (k : Keywords) : Prop :=
  match ops with
  | [] => True
  | op :: ops' =>
      match op with
      | IsKeyword _ | Rejects _ => True
      | Settles i found => fetching k !! i = Some keyword -> found = known
      | Prefetched rows => keyword ∈ rows -> known = true
      end /\ agrees keyword known ops' (cache_step op k)
  end.

(** Enter without results, while the search is running, on text that the
    location bar will not handle. *)
Definition enter_waits (event : KeyEvent) (st : State) : Prop :=
  keyCode event = DOM_VK_RETURN
  /\ shiftKey event || ctrlKey event || metaKey event = false
  /\ matchCount (host st) = 0%nat
  /\ (searchStatus (host st) <= STATUS_SEARCHING)%nat
  /\ truthy (fst (willHandle (getTyped (host st)) (keywords st))) = false.

(** Left, right and home. *)
Definition horizontal (key : KeyCode) : bool :=
  match key with
  | DOM_VK_LEFT | DOM_VK_RIGHT | DOM_VK_HOME => true
  | _ => false
  end.

(** Up, down, page up, page down and tab. *)
Definition vertical (key : KeyCode) : bool :=
  match key with
  | DOM_VK_UP | DOM_VK_DOWN | DOM_VK_PAGE_UP | DOM_VK_PAGE_DOWN
  | DOM_VK_TAB => true
  | _ => false
  end.

(** The window after the browser's own handling [moved] of a key that the
    listener saw first. *)
Definition after_key (event : KeyEvent) (moved : Host -> Host) (st : State)
    : State :=
  set_host (moved (host (keydown event st))) (keydown event st).

(** A string without whitespace at either end. *)
Definition trimmed (s : jsstring) : Prop :=
  match s with [] => True | c :: _ => is_whitespace c = false end
  /\ match last s with None => True | Some c => is_whitespace c = false end.

(** *** The wording of the specification, for comparison *)

(** The typed text as the specification words it: the text before the
    caret, or the full text if the caret is at the end, trimmed. *)
Definition typed_at_caret (v : jsstring) (caret : nat) : jsstring :=
  trim (if (caret =? length v)%nat then v else slice0 caret v).

(** The decision order as the specification words it: the parsers are
    tried on text without whitespace. *)
Definition hostWillHandle (rawText : jsstring) (k : Keywords) : bool :=
  let shortcut := fst (isKeyword (first_word rawText) k) in
  if no_whitespace rawText then
    match newURI rawText with
    | Some _ => true
    | None =>
        match getBaseDomainFromHost rawText with
        | Some _ => true
        | None => shortcut
        end
    end
  else shortcut.

(** *** Vocabulary of the further properties *)

(** [x] is a run of consecutive characters of [v]. *)
Definition piece_of (x v : jsstring) : Prop :=
  exists pre post, v = pre ++ x ++ post.

(** The delay of a queued callback is the one the code hands to [defer]
    with it: none for the two checks, and [MAX_WAIT_FOR_RESULTS] divided by
    the length of the captured text for an Enter wait. *)
Definition timer_as_scheduled (tm : Timer) : Prop :=
  match task tm with
  | LoadSearch entered =>
      delay tm
      = Some (div_by_length MAX_WAIT_FOR_RESULTS (length entered))
  | SelectedEnter | RestoreCompletion => delay tm = None
  end.

(** The snapshot fits together: the remembered search text is not longer
    than the remembered field value. *)
Definition snapshot_fits (c : Closure) : Prop :=
  (length (origSearch c) <= length (origValue c))%nat.

(** ** Properties *)

(** *** Strings *)

Example trim_both_ends : trim (str "  ca ts ") = str "ca ts".
Proof. reflexivity. Qed.

Example trim_line_break : trim (str "cats" ++ [10%N; 8232%N]) = str "cats".
Proof. reflexivity. Qed.

Example first_word_of_two : first_word (str "foo bar") = str "foo".
Proof. reflexivity. Qed.

Example first_word_after_space : first_word (str " foo") = [].
Proof. reflexivity. Qed.

Example first_word_splits_at_tab : first_word tabbed = str "http://a.b/".
Proof. reflexivity. Qed.

Example tab_is_no_space : no_space tabbed = true /\ no_whitespace tabbed = false.
Proof. split; reflexivity. Qed.

Lemma drop_while_split p s :
  exists pre, s = pre ++ drop_while p s /\ forallb p pre = true.
Proof.
  induction s as [|c s IH]; simpl.
  - by exists [].
  - destruct (p c) eqn:Hc.
    + destruct IH as (pre & Hs & Hpre). exists (c :: pre). simpl.
      rewrite Hc, Hpre. split; [by f_equal | done].
    + by exists [].
Qed.

Lemma drop_while_head p s c :
  head (drop_while p s) = Some c -> p c = false.
Proof.
  induction s as [|d s IH]; simpl; [done |].
  destruct (p d) eqn:Hd; [done |]. simpl. by intros [= <-].
Qed.

Lemma drop_while_id p s :
  match s with [] => True | c :: _ => p c = false end -> drop_while p s = s.
Proof. destruct s as [|c s]; simpl; [done |]. by intros ->. Qed.

(** [trim] cuts whitespace, and only whitespace, from both ends. *)
Lemma trim_split s :
  exists pre post,
    s = pre ++ trim s ++ post
    /\ forallb is_whitespace pre = true
    /\ forallb is_whitespace post = true.
Proof.
  unfold trim.
  destruct (drop_while_split is_whitespace s) as (pre & Hs & Hpre).
  destruct (drop_while_split is_whitespace
              (reverse (drop_while is_whitespace s))) as (post & Hr & Hpost).
  exists pre, (reverse post). split; [| split; [done |]].
  - rewrite <- reverse_app, <- Hr, reverse_involutive. exact Hs.
  - rewrite forallb_forall in *. intros c Hc. apply Hpost.
    rewrite <- list_elem_of_In in *. by apply elem_of_reverse.
Qed.

Lemma trim_trimmed s : trimmed (trim s).
Proof.
  unfold trimmed, trim.
  set (a := drop_while is_whitespace s).
  set (b := drop_while is_whitespace (reverse a)).
  split.
  - destruct (reverse b) as [|c r] eqn:Hrb; [done |].
    assert (Hlast : last b = Some c).
    { rewrite <- head_reverse, Hrb. done. }
    destruct (drop_while_split is_whitespace (reverse a)) as (pre & Hra & _).
    fold b in Hra.
    assert (Hla : last (reverse a) = Some c).
    { rewrite Hra, last_app, Hlast. done. }
    rewrite last_reverse in Hla.
    by apply (drop_while_head is_whitespace s).
  - rewrite last_reverse.
    destruct (head b) as [c|] eqn:Hb; [| done].
    by apply (drop_while_head is_whitespace (reverse a)).
Qed.

(** A string that is already trimmed is left as it is. *)
Lemma trim_id s : trimmed s -> trim s = s.
Proof.
  intros [Hh Hl]. unfold trim.
  rewrite (drop_while_id is_whitespace s) by exact Hh.
  rewrite drop_while_id; [apply reverse_involutive |].
  destruct (reverse s) as [|c r] eqn:Hr; [done |].
  assert (last s = Some c) as Hc by (by rewrite <- head_reverse, Hr).
  by rewrite Hc in Hl.
Qed.

(** *** getTyped *)

(** C4 (as amended): the typed text is the field value before
    [selectionStart] when the selection ends at the end of the field value,
    and the full field value otherwise, trimmed of whitespace at both ends
    in both cases; in particular with a collapsed caret, wherever it is, it
    is the full field value trimmed. *)
Theorem getTyped_selection (h : Host) :
  (selectionEnd h = length (value h) ->
     getTyped h = trim (slice0 (selectionStart h) (value h)))
  /\ (selectionEnd h <> length (value h) -> getTyped h = trim (value h))
  /\ (selectionStart h = selectionEnd h -> getTyped h = trim (value h))
  /\ trimmed (getTyped h).
Proof.
  unfold getTyped. repeat split.
  - intros ->. by rewrite Nat.eqb_refl.
  - intros Hne. apply Nat.eqb_neq in Hne. by rewrite Hne.
  - intros Hcaret. destruct (Nat.eqb_spec (selectionEnd h) (length (value h)))
      as [He|]; [| done].
    unfold slice0. rewrite take_ge; [done | lia].
  - destruct (_ =? _)%nat; apply trim_trimmed.
  - destruct (_ =? _)%nat; apply trim_trimmed.
Qed.

(** *** The keyword cache *)

Lemma isKeyword_hit keyword known k :
  cachedKeywords k !! keyword = Some known ->
  isKeyword keyword k = (known, k).
Proof. intros H. unfold isKeyword. by rewrite H. Qed.

Lemma isKeyword_alias keyword engine k :
  cachedKeywords k !! keyword = None ->
  getEngineByAlias keyword = Some engine ->
  isKeyword keyword k
  = (true, mkKeywords (<[keyword := true]> (cachedKeywords k)) (fetching k)).
Proof. intros H1 H2. unfold isKeyword. by rewrite H1, H2. Qed.

Lemma isKeyword_miss keyword k :
  cachedKeywords k !! keyword = None ->
  getEngineByAlias keyword = None ->
  isKeyword keyword k
  = (false, mkKeywords (cachedKeywords k) (fetching k ++ [keyword])).
Proof. intros H1 H2. unfold isKeyword. by rewrite H1, H2. Qed.

Lemma outstanding_snoc keyword k :
  outstanding keyword
    (mkKeywords (cachedKeywords k) (fetching k ++ [keyword]))
  = S (outstanding keyword k).
Proof.
  unfold outstanding. simpl. rewrite filter_app, length_app.
  rewrite filter_cons_True by done. simpl. lia.
Qed.

(** [isKeyword] never changes an entry that the cache holds. *)
Lemma isKeyword_keeps keyword k other known :
  cachedKeywords k !! other = Some known ->
  cachedKeywords (snd (isKeyword keyword k)) !! other = Some known.
Proof.
  intros Hother. unfold isKeyword.
  destruct (cachedKeywords k !! keyword) as [b|] eqn:Hk; [done |].
  destruct (getEngineByAlias keyword); simpl; [| done].
  rewrite lookup_insert_ne; [done | congruence].
Qed.

Lemma prefetch_lookup rows k keyword :
  cachedKeywords (prefetch rows k) !! keyword
  = if bool_decide (keyword ∈ rows) then Some true
    else cachedKeywords k !! keyword.
Proof.
  unfold prefetch. simpl. generalize (cachedKeywords k) as cache.
  induction rows as [|row rows IH]; intros cache; simpl; [done |].
  rewrite IH. destruct (decide (keyword ∈ rows)) as [Hin|Hin].
  - rewrite !bool_decide_eq_true_2; [done | by right | done].
  - rewrite (bool_decide_eq_false_2 _ Hin).
    destruct (decide (row = keyword)) as [->|Hne].
    + rewrite lookup_insert_eq, bool_decide_eq_true_2; [done | by left].
    + rewrite lookup_insert_ne by done.
      rewrite bool_decide_eq_false_2; [done |].
      rewrite elem_of_cons. intros [Heq|Hin']; [by symmetry in Heq | done].
Qed.

Lemma cache_step_kept keyword known op k :
  cachedKeywords k !! keyword = Some known ->
  agrees keyword known [op] k ->
  cachedKeywords (cache_step op k) !! keyword = Some known.
Proof.
  intros Hk [Hop _].
  destruct op as [kw | i found | i | rows]; cbn [cache_step]; [| | done |].
  - by apply isKeyword_keeps.
  - unfold resolve_fetch.
    destruct (fetching k !! i) as [kw|] eqn:Hi; [| done]. simpl.
    unfold fetch_then. destruct (decide (kw = keyword)) as [->|Hne].
    + rewrite lookup_insert_eq. f_equal. by apply Hop.
    + by rewrite lookup_insert_ne.
  - rewrite prefetch_lookup.
    destruct (decide (keyword ∈ rows)) as [Hin|Hin].
    + rewrite bool_decide_eq_true_2 by done. by rewrite (Hop Hin).
    + by rewrite bool_decide_eq_false_2.
Qed.

(** C5 (as amended): a call of [isKeyword] issues no backend lookup once
    the cache holds a value for the token, nor when the alias registry
    knows the token; otherwise it issues one, also while earlier lookups for
    the same token have not settled, so [n] calls before anything settles
    add [n] outstanding lookups for the token. *)
Theorem isKeyword_lookups (keyword : jsstring) (k : Keywords) :
  (is_Some (cachedKeywords k !! keyword) ->
     fetching (snd (isKeyword keyword k)) = fetching k)
  /\ (cachedKeywords k !! keyword = None ->
      is_Some (getEngineByAlias keyword) ->
      fetching (snd (isKeyword keyword k)) = fetching k)
  /\ (cachedKeywords k !! keyword = None ->
      getEngineByAlias keyword = None ->
      fetching (snd (isKeyword keyword k)) = fetching k ++ [keyword]
      /\ forall n,
           outstanding keyword
             (cache_run (replicate n (IsKeyword keyword)) k)
           = (outstanding keyword k + n)%nat).
Proof.
  split; [| split].
  - intros [known H]. by rewrite (isKeyword_hit _ _ _ H).
  - intros H [engine He]. by rewrite (isKeyword_alias _ _ _ H He).
  - intros H He. split; [by rewrite (isKeyword_miss _ _ H He) |].
    intros n. revert k H. induction n as [|n IH]; intros k H; simpl.
    + lia.
    + rewrite (isKeyword_miss _ _ H He). simpl.
      unfold cache_run in IH. rewrite IH by done.
      rewrite outstanding_snoc. lia.
Qed.

(** C6 (as amended): once the cache holds a value for a token, no call of
    [isKeyword] changes it (the cache hit returns it, and the alias check
    is only reached for a token without entry); the callback of a settling
    lookup and the pre-fetch write without looking, so the value stays as
    it is as long as every lookup that settles for the token reports the
    cached value and the token is pre-fetched only when it is cached as
    known. *)
Theorem cached_value_kept (keyword : jsstring) (known : bool)
    (ops : list CacheOp) (k : Keywords) :
  cachedKeywords k !! keyword = Some known ->
  agrees keyword known ops k ->
  cachedKeywords (cache_run ops k) !! keyword = Some known
  /\ forall other,
       cachedKeywords (snd (isKeyword other k)) !! keyword = Some known.
Proof.
  intros Hk Hops. split; [| intros other; by apply isKeyword_keeps].
  revert k Hk Hops. induction ops as [|op ops IH]; intros k Hk Hops;
    [done |].
  destruct Hops as [Hop Hrest]. simpl. apply IH; [| done].
  apply cache_step_kept; [done |]. by split.
Qed.

(** *** willHandle *)

Lemma willHandle_uri search uri k :
  no_space search = true ->
  newURI search = Some uri ->
  willHandle search k = (RetURI uri, k).
Proof. intros H1 H2. unfold willHandle. by rewrite H1, H2. Qed.

Lemma willHandle_domain search domain k :
  no_space search = true ->
  newURI search = None ->
  getBaseDomainFromHost search = Some domain ->
  willHandle search k = (RetDomain domain, k).
Proof. intros H1 H2 H3. unfold willHandle. by rewrite H1, H2, H3. Qed.

Lemma willHandle_keyword search k :
  no_space search = false
  \/ (newURI search = None /\ getBaseDomainFromHost search = None) ->
  willHandle search k
  = (RetBool (fst (isKeyword (first_word search) k)),
     snd (isKeyword (first_word search) k)).
Proof.
  intros H. unfold willHandle.
  destruct (isKeyword (first_word search) k) as [known k'] eqn:Hkw. simpl.
  destruct H as [-> | [-> ->]]; [done |]. by destruct (no_space search).
Qed.

Lemma no_whitespace_no_space s : no_whitespace s = true -> no_space s = true.
Proof.
  unfold no_whitespace, no_space. rewrite !negb_true_iff.
  induction s as [|c s IH]; simpl; [done |].
  rewrite !orb_false_iff. intros [Hc Hs]. split; [| by apply IH].
  unfold is_space. unfold is_whitespace in Hc.
  destruct (N.eqb_spec c 32) as [->|]; [done | done].
Qed.

(** C3 (as amended): [willHandle] follows the decision order: for input
    without a space character (U+0020), whitespace of other kinds or not,
    it returns the URI object (truthy) if the input parses as a URI, without
    trying the domain parser or the keyword check; else it returns the base
    domain (a string, truthy unless empty) if one can be extracted, without
    the keyword check; otherwise (a space in the input, or both parsers
    fail) it returns true iff the first whitespace-separated token is a
    known shortcut, else false.  In particular on [http://example.com] it
    returns the parsed URI, on [example.com/page] the parsed URI or else the
    base domain, on [weather], which the parsers reject, what [isKeyword]
    says of [weather], and on [foo bar] what [isKeyword] says of [foo]. *)
Theorem willHandle_decision_order (search : jsstring) (k : Keywords) :
  let shortcut s := isKeyword (first_word s) k in
  (forall uri,
      no_space search = true -> newURI search = Some uri ->
      willHandle search k = (RetURI uri, k))
  /\ (forall domain,
        no_space search = true -> newURI search = None ->
        getBaseDomainFromHost search = Some domain ->
        willHandle search k = (RetDomain domain, k))
  /\ (no_space search = false
      \/ (newURI search = None /\ getBaseDomainFromHost search = None) ->
      willHandle search k
      = (RetBool (fst (shortcut search)), snd (shortcut search)))
  /\ (forall uri : nsIURI, truthy (RetURI uri) = true)
  /\ (forall domain, truthy (@RetDomain nsIURI domain) = true <-> domain <> [])
  /\ (forall uri,
        newURI (str "http://example.com") = Some uri ->
        willHandle (str "http://example.com") k = (RetURI uri, k))
  /\ (forall uri,
        newURI (str "example.com/page") = Some uri ->
        willHandle (str "example.com/page") k = (RetURI uri, k))
  /\ (forall domain,
        newURI (str "example.com/page") = None ->
        getBaseDomainFromHost (str "example.com/page") = Some domain ->
        willHandle (str "example.com/page") k = (RetDomain domain, k))
  /\ (newURI (str "weather") = None ->
      getBaseDomainFromHost (str "weather") = None ->
      willHandle (str "weather") k
      = (RetBool (fst (isKeyword (str "weather") k)),
         snd (isKeyword (str "weather") k)))
  /\ willHandle (str "foo bar") k
     = (RetBool (fst (isKeyword (str "foo") k)),
        snd (isKeyword (str "foo") k)).
Proof.
  intros shortcut.
  split; [intros uri; apply willHandle_uri |].
  split; [intros domain; apply willHandle_domain |].
  split; [apply willHandle_keyword |].
  split; [done |].
  split.
  { intros domain. simpl. rewrite negb_true_iff, bool_decide_eq_false. done. }
  split; [intros uri; by apply willHandle_uri |].
  split; [intros uri; by apply willHandle_uri |].
  split; [intros domain; by apply willHandle_domain |].
  split.
  - intros Hu Hd. by rewrite willHandle_keyword by (right; done).
  - by rewrite willHandle_keyword by (left; done).
Qed.

(** Where a space is the only whitespace that occurs, the code decides as
    the specification words it. *)
Lemma willHandle_as_specified search k :
  (forall h domain,
      getBaseDomainFromHost h = Some domain -> domain <> []) ->
  no_whitespace search = no_space search ->
  truthy (fst (willHandle search k)) = hostWillHandle search k.
Proof.
  intros Hdomain Hws. unfold hostWillHandle, willHandle. rewrite Hws.
  destruct (isKeyword (first_word search) k) as [known k'].
  destruct (no_space search); [| done].
  destruct (newURI search); [done |].
  destruct (getBaseDomainFromHost search) as [domain|] eqn:Hd; [| done].
  simpl. apply negb_true_iff, bool_decide_eq_false_2. by eapply Hdomain.
Qed.

(** *** The wrapper of [_appendCurrentResult] *)

Lemma append_skips orig st :
  targetIndex <= selectedIndex (orig (host st))
  \/ _matchCount (orig (host st)) = 0%nat ->
  appendCurrentResult orig st = set_host (orig (host st)) st.
Proof.
  intros H. unfold appendCurrentResult. simpl.
  destruct (Z.leb_spec targetIndex (selectedIndex (orig (host st))));
    [done |].
  destruct H as [H | ->]; [lia | done].
Qed.

Lemma append_selects orig st :
  selectedIndex (orig (host st)) < targetIndex ->
  _matchCount (orig (host st)) <> 0%nat ->
  truthy (fst (willHandle (getTyped (orig (host st))) (keywords st)))
  = false ->
  appendCurrentResult orig st
  = mkState (set_selectedIndex targetIndex (orig (host st)))
            (mkClosure false (getTyped (orig (host st)))
                       (value (orig (host st))))
            (snd (willHandle (getTyped (orig (host st))) (keywords st)))
            (if selectNext (vars st)
             then timers st ++ [mkTimer SelectedEnter None]
             else timers st)
            (calls st).
Proof.
  intros Hidx Hcount Hfree. unfold appendCurrentResult. simpl.
  destruct (Z.leb_spec targetIndex (selectedIndex (orig (host st))));
    [lia |].
  destruct (Nat.eqb_spec (_matchCount (orig (host st))) 0); [done |].
  destruct (willHandle _ _) as [handled k]. simpl in *. rewrite Hfree.
  simpl. by destruct (selectNext (vars st)) eqn:Hnext.
Qed.

Lemma auto_selects_selects orig st :
  auto_selects orig st = true ->
  selectedIndex (host (appendCurrentResult orig st)) = targetIndex.
Proof.
  unfold auto_selects. rewrite !andb_true_iff, !negb_true_iff.
  intros [[Hidx Hcount] Hfree]. rewrite append_selects; [done | | | done].
  - by apply Z.leb_gt.
  - by apply Nat.eqb_neq.
Qed.

Lemma index_history_selected origs st :
  targetIndex <= selectedIndex (host st) ->
  Forall (fun o : Host -> Host =>
            forall h, selectedIndex (o h) = selectedIndex h) origs ->
  index_history origs st
  = replicate (length origs) (selectedIndex (host st)).
Proof.
  intros Hsel Hkeep. revert st Hsel.
  induction Hkeep as [|orig origs Horig _ IH]; intros st Hsel; [done |].
  simpl. rewrite append_skips by (left; by rewrite Horig). simpl.
  rewrite Horig. f_equal. rewrite IH; simpl; rewrite Horig; done.
Qed.

Lemma transitions_constant i n : transitions i (replicate n i) = O.
Proof.
  induction n as [|n IH]; simpl; [done |].
  by rewrite bool_decide_eq_true_2, IH.
Qed.

(** C1: when the suggestion list gets its first entries while the typed
    text is neither a URL, a domain nor a known shortcut, the selection
    index goes from -1 to [targetIndex] (1), and over this and any number
    of further results-appended events it changes exactly once; every
    results-appended event that finds the selection index at or above
    [targetIndex], or the list empty, leaves everything as the browser's
    own routine left it. *)
Theorem auto_select_once (st : State) (orig : Host -> Host)
    (origs : list (Host -> Host)) :
  selectedIndex (host st) = -1 ->
  _matchCount (orig (host st)) <> 0%nat ->
  Forall (fun o : Host -> Host =>
            forall h, selectedIndex (o h) = selectedIndex h)
         (orig :: origs) ->
  truthy (fst (willHandle (getTyped (orig (host st))) (keywords st)))
  = false ->
  selectedIndex (host (appendCurrentResult orig st)) = targetIndex
  /\ index_history (orig :: origs) st
     = replicate (S (length origs)) targetIndex
  /\ transitions (-1) (index_history (orig :: origs) st) = 1%nat
  /\ forall st' orig',
       targetIndex <= selectedIndex (orig' (host st'))
       \/ _matchCount (orig' (host st')) = 0%nat ->
       appendCurrentResult orig' st' = set_host (orig' (host st')) st'.
Proof.
  intros Hnone Hcount Hkeep Hfree.
  apply Forall_cons in Hkeep as [Horig Horigs].
  assert (Hfirst :
    selectedIndex (host (appendCurrentResult orig st)) = targetIndex).
  { rewrite append_selects; [done | | done | done].
    rewrite Horig, Hnone. done. }
  assert (Hhist : index_history (orig :: origs) st
                  = replicate (S (length origs)) targetIndex).
  { simpl. rewrite Hfirst. f_equal.
    rewrite index_history_selected; [by rewrite Hfirst | | done].
    by rewrite Hfirst. }
  split; [done |]. split; [done |].
  split; [| intros st' orig'; apply append_skips].
  rewrite Hhist. cbn [replicate transitions].
  rewrite bool_decide_eq_false_2 by done.
  by rewrite transitions_constant.
Qed.

(** *** The key handler and the deferred callbacks *)

Lemma snoc_ne {A} (l : list A) (x : A) : l ++ [x] <> l.
Proof.
  intros H. apply (f_equal length) in H. rewrite length_app in H.
  simpl in H. lia.
Qed.

Lemma keydown_enter_waits event st :
  enter_waits event st ->
  keydown event st
  = mkState (host st)
            (mkClosure true (origSearch (vars st)) (origValue (vars st)))
            (snd (willHandle (getTyped (host st)) (keywords st)))
            (timers st
             ++ [mkTimer (LoadSearch (getTyped (host st)))
                   (Some (div_by_length MAX_WAIT_FOR_RESULTS
                            (length (getTyped (host st)))))])
            (calls st ++ [preventDefault]).
Proof.
  intros (Hkey & Hmod & Hcount & Hstatus & Hfree). unfold keydown.
  rewrite Hkey, Hmod, Hcount. simpl.
  destruct (Nat.leb_spec (searchStatus (host st)) STATUS_SEARCHING);
    [| lia].
  destruct (willHandle _ _) as [handled k]. simpl in *. by rewrite Hfree.
Qed.

(** C2: the callback of the bounded Enter wait calls [onTextEntered] if
    and only if the typed text, trimmed, still equals the [enteredSearch]
    captured when Enter was pressed and the result count is still zero;
    otherwise, in particular when results have arrived, it changes
    nothing.  The [enteredSearch] it is scheduled with is the typed text at
    the time of the key press. *)
Theorem enter_wait_callback (enteredSearch : jsstring) (st : State) :
  let st' := run_task (LoadSearch enteredSearch) st in
  (calls st' = calls st ++ [onTextEntered]
   <-> enteredSearch = getTyped (host st) /\ matchCount (host st) = 0%nat)
  /\ (enteredSearch = getTyped (host st) -> matchCount (host st) = 0%nat ->
      st' = mkState (host st)
              (mkClosure false (origSearch (vars st)) (origValue (vars st)))
              (keywords st) (timers st) (calls st ++ [onTextEntered]))
  /\ (enteredSearch <> getTyped (host st) -> st' = st)
  /\ ((1 <= matchCount (host st))%nat -> st' = st)
  /\ forall event st0,
       enter_waits event st0 ->
       last (timers (keydown event st0))
       = Some (mkTimer (LoadSearch (getTyped (host st0)))
                 (Some (div_by_length MAX_WAIT_FOR_RESULTS
                          (length (getTyped (host st0)))))).
Proof.
  assert (Hlast : forall event st0,
            enter_waits event st0 ->
            last (timers (keydown event st0))
            = Some (mkTimer (LoadSearch (getTyped (host st0)))
                      (Some (div_by_length MAX_WAIT_FOR_RESULTS
                               (length (getTyped (host st0))))))).
  { intros event st0 Hw. rewrite keydown_enter_waits by done. simpl.
    by rewrite last_snoc. }
  cbn [run_task]. unfold JS.eqb.
  destruct (decide (enteredSearch = getTyped (host st))) as [Heq|Hne].
  - rewrite (bool_decide_eq_true_2 _ Heq). cbn [andb].
    destruct (Nat.eqb_spec (matchCount (host st)) 0) as [H0|Hn0].
    + split; [done |]. split; [done |]. split; [done |].
      split; [lia | done].
    + split.
      { split; [| tauto]. intros Hc. symmetry in Hc.
        by apply snoc_ne in Hc. }
      split; [done |]. split; [done |]. split; done.
  - rewrite (bool_decide_eq_false_2 _ Hne). cbn [andb].
    split.
    { split; [| tauto]. intros Hc. symmetry in Hc. by apply snoc_ne in Hc. }
    split; [done |]. split; [done |]. split; done.
Qed.

(** *** The delay of the Enter wait *)


Lemma round_half_even_spec p q :
  0 < q ->
  - q <= 2 * (round_half_even p q * q - p) <= q
  /\ (Z.abs (2 * (round_half_even p q * q - p)) = q ->
      Z.even (round_half_even p q) = true).
Proof.
  intros Hq. unfold round_half_even.
  pose proof (Z.div_mod p q ltac:(lia)) as Hp.
  pose proof (Z.mod_pos_bound p q Hq) as Hr.
  set (d := p / q) in *. set (r := p mod q) in *.
  destruct (Z.ltb_spec (2 * r) q) as [H1|H1].
  - split; [nia |]. intros Habs. exfalso. nia.
  - destruct (Z.ltb_spec q (2 * r)) as [H2|H2].
    + split; [nia |]. intros Habs. exfalso. nia.
    + destruct (Z.even d) eqn:Hd.
      * split; [nia | done].
      * split; [nia |]. intros _. rewrite Z.even_add, Hd. done.
Qed.

(** Rounding keeps the order of the quotients. *)
Lemma round_half_even_mono p1 q1 p2 q2 :
  0 < q1 -> 0 < q2 -> p1 * q2 <= p2 * q1 ->
  round_half_even p1 q1 <= round_half_even p2 q2.
Proof.
  intros Hq1 Hq2 Hle.
  destruct (round_half_even_spec p1 q1 Hq1) as [[_ Hu1] He1].
  destruct (round_half_even_spec p2 q2 Hq2) as [[Hl2 _] He2].
  set (m1 := round_half_even p1 q1) in *.
  set (m2 := round_half_even p2 q2) in *.
  destruct (Z_le_gt_dec m1 m2) as [|Hgt]; [done | exfalso].
  assert (Ha : (2 * m2 + 1) * q1 <= 2 * p1) by nia.
  assert (Hb : 2 * p2 <= (2 * m2 + 1) * q2) by nia.
  assert (Hc : (2 * m2 + 1) * q1 * q2 <= 2 * p1 * q2) by nia.
  assert (Hd : 2 * p2 * q1 <= (2 * m2 + 1) * q2 * q1) by nia.
  assert (Heq1 : 2 * p1 * q2 = (2 * m2 + 1) * q1 * q2) by nia.
  assert (Heq2 : 2 * p2 * q1 = (2 * m2 + 1) * q2 * q1) by nia.
  assert (Hp1 : 2 * p1 = (2 * m2 + 1) * q1) by nia.
  assert (Hp2 : 2 * p2 = (2 * m2 + 1) * q2) by nia.
  assert (Hm : m1 = m2 + 1) by nia.
  assert (Hev1 : Z.even m1 = true) by (apply He1; nia).
  assert (Hev2 : Z.even m2 = true) by (apply He2; nia).
  rewrite Hm, Z.even_add, Hev2 in Hev1. done.
Qed.

Lemma round_half_even_integer z : round_half_even z 1 = z.
Proof. unfold round_half_even. by rewrite Z.div_1_r, Z.mod_1_r. Qed.

Lemma log2_up_bound n : 0 < n -> 0 <= Z.log2_up n /\ n <= 2 ^ Z.log2_up n.
Proof.
  intros Hn. split; [apply Z.log2_up_nonneg |].
  destruct (Z.eq_dec n 1) as [->|]; [done |]. apply Z.log2_up_spec. lia.
Qed.

Lemma binary64_shift_spec a n :
  0 < a -> 0 < n -> 0 <= binary64_shift a n ->
  2 ^ 52 * n <= a * 2 ^ binary64_shift a n < 2 ^ 53 * n.
Proof.
  intros Ha Hn. unfold binary64_shift.
  destruct (log2_up_bound n Hn) as [Hs Hns].
  set (s := Z.log2_up n) in *. set (t := a * 2 ^ s / n).
  assert (Hpow : 0 < 2 ^ s) by (apply Z.pow_pos_nonneg; lia).
  assert (Ht : 0 < t) by (apply Z.div_str_pos; nia).
  pose proof (Z.log2_spec t Ht) as [HL1 HL2].
  pose proof (Z.log2_nonneg t) as HL0.
  set (L := Z.log2 t) in *.
  pose proof (Z.div_mod (a * 2 ^ s) n ltac:(lia)) as Hdm.
  pose proof (Z.mod_pos_bound (a * 2 ^ s) n Hn) as Hr.
  fold t in Hdm.
  intros Hk. set (k := 52 + s - L) in *.
  assert (Hkl : 2 ^ k * 2 ^ L = 2 ^ 52 * 2 ^ s).
  { rewrite <- !Z.pow_add_r by lia. f_equal. lia. }
  assert (HpL : 0 < 2 ^ L) by (apply Z.pow_pos_nonneg; lia).
  assert (Hpk : 0 < 2 ^ k) by (apply Z.pow_pos_nonneg; lia).
  replace (2 ^ Z.succ L) with (2 * 2 ^ L) in HL2
    by (rewrite Z.pow_succ_r; lia).
  assert (H1 : 2 ^ L * n <= a * 2 ^ s) by nia.
  assert (H2 : a * 2 ^ s < 2 * 2 ^ L * n) by nia.
  change (2 ^ 53) with (2 * 2 ^ 52).
  split.
  - apply (Z.mul_le_mono_pos_r _ _ (2 ^ L)); [done |].
    replace (a * 2 ^ k * 2 ^ L) with (a * 2 ^ s * 2 ^ 52) by nia. nia.
  - apply (Z.mul_lt_mono_pos_r (2 ^ L)); [done |].
    replace (a * 2 ^ k * 2 ^ L) with (a * 2 ^ s * 2 ^ 52) by nia. nia.
Qed.

Lemma binary64_shift_nonneg a n :
  0 < a < 2 ^ 52 -> 0 < n -> 0 <= binary64_shift a n.
Proof.
  intros Ha Hn. unfold binary64_shift.
  destruct (log2_up_bound n Hn) as [Hs Hns].
  set (s := Z.log2_up n) in *. set (t := a * 2 ^ s / n).
  assert (Hpow : 0 < 2 ^ s) by (apply Z.pow_pos_nonneg; lia).
  assert (Ht : 0 < t) by (apply Z.div_str_pos; nia).
  assert (Hle : t <= a * 2 ^ s).
  { apply Z.div_le_upper_bound; [lia | nia]. }
  assert (Hlt : t < 2 ^ (52 + s)).
  { rewrite Z.pow_add_r by lia. nia. }
  apply Z.log2_lt_pow2 in Hlt; [lia | done].
Qed.

(** The Number [a / n] is a significand [m] of 53 bits at the exponent of
    the quotient, and [m] is the integer next to the scaled quotient. *)
Lemma binary64_div_parts (a n : positive) :
  Zpos a < 2 ^ 52 ->
  exists m k,
    0 <= k
    /\ binary64_div a n = Q2Qc (m # Z.to_pos (2 ^ k))
    /\ m = round_half_even (Zpos a * 2 ^ k) (Zpos n)
    /\ 2 ^ 52 * Zpos n <= Zpos a * 2 ^ k < 2 ^ 53 * Zpos n
    /\ 2 ^ 52 <= m <= 2 ^ 53
    /\ - Zpos n <= 2 * (m * Zpos n - Zpos a * 2 ^ k) <= Zpos n.
Proof.
  intros Ha.
  assert (Hk : 0 <= binary64_shift (Zpos a) (Zpos n))
    by (apply binary64_shift_nonneg; lia).
  pose proof (binary64_shift_spec (Zpos a) (Zpos n) ltac:(lia) ltac:(lia) Hk)
    as Hrange.
  exists (round_half_even (Zpos a * 2 ^ binary64_shift (Zpos a) (Zpos n))
            (Zpos n)), (binary64_shift (Zpos a) (Zpos n)).
  split; [done |]. split.
  { unfold binary64_div. by rewrite (proj2 (Z.leb_le _ _) Hk). }
  split; [done |]. split; [done |]. split.
  - split.
    + rewrite <- (round_half_even_integer (2 ^ 52)).
      apply round_half_even_mono; lia.
    + rewrite <- (round_half_even_integer (2 ^ 53)).
      apply round_half_even_mono; lia.
  - apply round_half_even_spec. lia.
Qed.



Lemma binary64_div_bounds (a n : positive) :
  Zpos a < 2 ^ 52 ->
  (0 < binary64_div a n)%Qc
  /\ (binary64_div a n <= Q2Qc (inject_Z (Zpos a)))%Qc.
Proof.
  intros Ha.
  destruct (binary64_div_parts a n Ha)
    as (m & k & Hk & -> & Hm & Hr & Hb & _).
  assert (Hp : 0 < 2 ^ k) by (apply Z.pow_pos_nonneg; lia).
  split.
  - unfold Qclt. simpl. rewrite !Qred_correct. unfold Qlt. simpl. lia.
  - assert (Hle : m <= Zpos a * 2 ^ k).
    { rewrite <- (round_half_even_integer (Zpos a * 2 ^ k)). subst m.
      apply round_half_even_mono; [lia | lia |]. nia. }
    unfold Qcle. simpl. rewrite !Qred_correct. unfold Qle, inject_Z.
    simpl Qnum. simpl Qden. rewrite Z2Pos.id by done. lia.
Qed.


(** On the lengths up to 2000 the division of the embedding is the division
    of the machine's binary64 floats. *)
Lemma same_millis_eq x y : same_millis x y = true -> y = Some x.
Proof.
  destruct x as [a|], y as [[b|]|]; simpl; try discriminate; [| done].
  intros Hab. apply Qeq_bool_eq, Qc_is_canon in Hab. by subst.
Qed.

Example div_by_length_as_floats :
  forallb (fun n => same_millis (div_by_length MAX_WAIT_FOR_RESULTS n)
                      (float_div_by_length MAX_WAIT_FOR_RESULTS n))
          (seq 0 2001)
  = true.
Proof. vm_compute. reflexivity. Qed.


(** *** Leaving the popup *)

Lemma remove_nth_snoc {A} (l : list A) (x : A) :
  remove_nth (length l) (l ++ [x]) = l.
Proof.
  unfold remove_nth. rewrite take_app_length.
  rewrite drop_ge; [apply app_nil_r |]. rewrite length_app. simpl. lia.
Qed.

Lemma keydown_horizontal event st :
  horizontal (keyCode event) = true ->
  keydown event st = set_host (set_selectedIndex (-1) (host st)) st.
Proof. unfold keydown. by destruct (keyCode event). Qed.

Lemma keydown_vertical event st :
  vertical (keyCode event) = true ->
  keydown event st = defer RestoreCompletion None st.
Proof. unfold keydown. by destruct (keyCode event). Qed.

(** The deferred check of a vertical movement key, when it finds nothing
    selected and the popup open, puts the snapshot back. *)
Lemma vertical_restores event moved st :
  vertical (keyCode event) = true ->
  selectedIndex (host (after_key event moved st)) = -1 ->
  popupOpen (host (after_key event moved st)) = true ->
  exists st',
    step (after_key event moved st) (Fires (length (timers st)) 0%Qc) st'
    /\ value (host st') = origValue (vars st)
    /\ selectionStart (host st') = length (origSearch (vars st))
    /\ timers st' = timers st.
Proof.
  intros Hkey Hsel Hopen. unfold after_key in *.
  rewrite keydown_vertical in * by done. simpl in *.
  eexists. split.
  - eapply (step_fires _ _ _ (mkTimer RestoreCompletion None)); [| done].
    simpl. by apply list_lookup_middle.
  - simpl. rewrite Hsel, Hopen. simpl. by rewrite remove_nth_snoc.
Qed.

(** C8: with the snapshot [origSearch = "ca"], [origValue = "cats"] of an
    auto-selection, a horizontal movement key sets the selection index to
    -1 and defers nothing, and the deferred check of a following vertical
    movement key, when it finds the selection index still -1 and the popup
    open, sets the field value to ["cats"] and [selectionStart] to 2. *)
Theorem navigation_revert (st : State) (sideways updown : KeyEvent)
    (moved : Host -> Host) :
  origSearch (vars st) = str "ca" ->
  origValue (vars st) = str "cats" ->
  horizontal (keyCode sideways) = true ->
  vertical (keyCode updown) = true ->
  let st1 := keydown sideways st in
  let st2 := after_key updown moved st1 in
  selectedIndex (host st1) = -1
  /\ st1 = set_host (set_selectedIndex (-1) (host st)) st
  /\ timers st1 = timers st
  /\ timers st2 = timers st ++ [mkTimer RestoreCompletion None]
  /\ (selectedIndex (host st2) = -1 -> popupOpen (host st2) = true ->
      exists st3,
        step st2 (Fires (length (timers st)) 0%Qc) st3
        /\ value (host st3) = str "cats"
        /\ selectionStart (host st3) = 2%nat
        /\ timers st3 = timers st).
Proof.
  intros Hsearch Hvalue Hside Hupdown st1 st2. subst st1 st2.
  rewrite (keydown_horizontal sideways st Hside).
  split; [done |]. split; [done |]. split; [done |]. split.
  - unfold after_key. by rewrite keydown_vertical.
  - intros Hsel Hopen.
    destruct (vertical_restores updown moved _ Hupdown Hsel Hopen)
      as (st3 & Hstep & Hv & Hs & Ht).
    exists st3. simpl in *. rewrite Hvalue in Hv. rewrite Hsearch in Hs.
    done.
Qed.

Lemma append_unselected orig st :
  auto_selects orig st = false ->
  vars (appendCurrentResult orig st) = vars st.
Proof.
  unfold auto_selects, appendCurrentResult. simpl.
  destruct (targetIndex <=? _)%Z; [done |].
  destruct (_ =? 0)%nat; [done |].
  destruct (willHandle _ _) as [handled k]. simpl.
  by destruct (truthy handled).
Qed.

Lemma step_keeps_snapshot st e st' :
  step st e st' ->
  (forall orig, e = Appended orig -> auto_selects orig st = false) ->
  origSearch (vars st') = origSearch (vars st)
  /\ origValue (vars st') = origValue (vars st).
Proof.
  intros Hstep Hquiet. destruct Hstep as
    [st orig | st event | st i elapsed tm Htm Hdue | st change | st op].
  - by rewrite append_unselected by (by apply Hquiet).
  - unfold keydown. destruct (keyCode event); try done.
    destruct (_ || _); [done |]. destruct (_ && _).
    + destruct (willHandle _ _) as [handled k]. simpl.
      by destruct (truthy handled).
    + by destruct (_ =? _)%Z.
  - destruct (task tm); simpl; [done | |].
    + by destruct (_ && _).
    + by destruct (_ && _).
  - done.
  - done.
Qed.

Lemma run_unselected_keeps_snapshot st es st' :
  run_unselected st es st' ->
  origSearch (vars st') = origSearch (vars st)
  /\ origValue (vars st') = origValue (vars st).
Proof.
  induction 1 as [st | st e st' es st'' Hstep Hquiet _ [IH1 IH2]];
    [done |].
  destruct (step_keeps_snapshot _ _ _ Hstep Hquiet) as [H1 H2].
  by rewrite IH1, IH2, H1, H2.
Qed.

(** C10: the snapshot starts as two empty strings, so when a vertical
    movement key is pressed before the wrapper has ever selected and its
    deferred check finds nothing selected and the popup open, the field
    value is set to the empty string and [selectionStart] to 0. *)
Theorem restore_before_any_selection (st0 st : State) (es : list Event)
    (updown : KeyEvent) (moved : Host -> Host) :
  vars st0 = init_closure ->
  run_unselected st0 es st ->
  vertical (keyCode updown) = true ->
  selectedIndex (host (after_key updown moved st)) = -1 ->
  popupOpen (host (after_key updown moved st)) = true ->
  origSearch init_closure = [] /\ origValue init_closure = []
  /\ exists st',
       step (after_key updown moved st) (Fires (length (timers st)) 0%Qc) st'
       /\ value (host st') = []
       /\ selectionStart (host st') = 0%nat.
Proof.
  intros Hinit Hrun Hupdown Hsel Hopen. split; [done |]. split; [done |].
  destruct (run_unselected_keeps_snapshot _ _ _ Hrun) as [Hs Hv].
  rewrite Hinit in Hs, Hv. simpl in Hs, Hv.
  destruct (vertical_restores updown moved _ Hupdown Hsel Hopen)
    as (st' & Hstep & Hv' & Hs' & _).
  exists st'. by rewrite Hv', Hs', Hv, Hs.
Qed.

(** *** Enter on empty text *)

(** [selectNext] is only cleared by the wrapper when it selects, and by the
    callback of an Enter wait when it finds its text unchanged and no
    results. *)
Lemma selectNext_cleared st e st' :
  step st e st' ->
  selectNext (vars st) = true ->
  selectNext (vars st') = false ->
  (exists orig, e = Appended orig /\ auto_selects orig st = true)
  \/ (exists i elapsed tm entered,
        e = Fires i elapsed /\ timers st !! i = Some tm
        /\ task tm = LoadSearch entered
        /\ entered = getTyped (host st)
        /\ matchCount (host st) = 0%nat).
Proof.
  intros Hstep Hset Hclear. destruct Hstep as
    [st orig | st event | st i elapsed tm Htm Hdue | st change | st op].
  - left. exists orig. split; [done |].
    destruct (auto_selects orig st) eqn:Hsel; [done |].
    rewrite append_unselected in Hclear by done. congruence.
  - exfalso. revert Hclear. unfold keydown.
    destruct (keyCode event); simpl; try congruence.
    destruct (_ || _); [congruence |]. destruct (_ && _).
    + destruct (willHandle _ _) as [handled k]. simpl.
      destruct (truthy handled); simpl; congruence.
    + destruct (_ =? _)%Z; simpl; congruence.
  - destruct tm as [[| | entered] d]; simpl in *.
    + congruence.
    + destruct (_ && _); simpl in *; congruence.
    + right. exists i, elapsed, (mkTimer (LoadSearch entered) d), entered.
      split; [done |]. split; [done |]. split; [done |].
      unfold JS.eqb in Hclear.
      destruct (decide (entered = getTyped (host st))) as [Heq|Hne].
      * split; [done |].
        destruct (Nat.eqb_spec (matchCount (host st)) 0) as [|Hn0]; [done |].
        rewrite andb_false_r in Hclear. simpl in Hclear. congruence.
      * rewrite bool_decide_eq_false_2 in Hclear by done.
        simpl in Hclear. congruence.
  - simpl in *. congruence.
  - simpl in *. congruence.
Qed.

(** C9 (as amended): Enter on empty typed text, without results while the
    search is running and with [willHandle] of the empty string falsy,
    suppresses the default commit, sets [selectNext] and hands [defer] the
    fallback with the delay [MAX_WAIT_FOR_RESULTS / 0], which is
    [+Infinity] and no finite delay.  The suppressed Enter is then consumed
    ([selectNext] cleared) only by a results-appended event on which the
    wrapper selects, or by the fallback of an Enter wait that runs while the
    typed text still equals its [enteredSearch] and the result count is
    zero, as that of a later Enter on text typed since; and a selecting
    results-appended event does consume it. *)
Theorem enter_on_empty_text (event : KeyEvent) (st : State) :
  enter_waits event st ->
  getTyped (host st) = [] ->
  let st1 := keydown event st in
  calls st1 = calls st ++ [preventDefault]
  /\ selectNext (vars st1) = true
  /\ div_by_length MAX_WAIT_FOR_RESULTS (length (getTyped (host st)))
     = PosInfinity
  /\ (forall ms,
        div_by_length MAX_WAIT_FOR_RESULTS (length (getTyped (host st)))
        <> Finite ms)
  /\ timers st1 = timers st ++ [mkTimer (LoadSearch []) (Some PosInfinity)]
  /\ (forall s e s',
        step s e s' ->
        selectNext (vars s) = true -> selectNext (vars s') = false ->
        (exists orig, e = Appended orig /\ auto_selects orig s = true)
        \/ (exists i elapsed tm entered,
              e = Fires i elapsed /\ timers s !! i = Some tm
              /\ task tm = LoadSearch entered
              /\ entered = getTyped (host s)
              /\ matchCount (host s) = 0%nat))
  /\ (forall orig,
        auto_selects orig st1 = true ->
        selectNext (vars (appendCurrentResult orig st1)) = false
        /\ last (timers (appendCurrentResult orig st1))
           = Some (mkTimer SelectedEnter None)).
Proof.
  intros Hw Hempty st1. subst st1.
  rewrite keydown_enter_waits by done. rewrite Hempty. simpl.
  split; [done |]. split; [done |]. split; [done |]. split; [done |].
  split; [done |]. split; [apply selectNext_cleared |].
  intros orig Hsel. rewrite append_selects.
  - simpl. by rewrite last_snoc.
  - unfold auto_selects in Hsel. rewrite !andb_true_iff in Hsel.
    destruct Hsel as [[Hidx _] _]. apply negb_true_iff in Hidx.
    by apply Z.leb_gt.
  - unfold auto_selects in Hsel. rewrite !andb_true_iff in Hsel.
    destruct Hsel as [[_ Hcount] _]. apply negb_true_iff in Hcount.
    by apply Nat.eqb_neq.
  - unfold auto_selects in Hsel. rewrite !andb_true_iff in Hsel.
    destruct Hsel as [_ Hfree]. by apply negb_true_iff in Hfree.
Qed.

(** ** Further properties *)

(** *** The keyword cache *)

(** X1: [isKeyword] answers true exactly when, after the call, the cache
    holds true for the keyword; a second call right after the first gives
    the same answer and leaves the cache as the first left it. *)
Theorem isKeyword_answer (keyword : jsstring) (k : Keywords) :
  (fst (isKeyword keyword k) = true
   <-> cachedKeywords (snd (isKeyword keyword k)) !! keyword = Some true)
  /\ fst (isKeyword keyword (snd (isKeyword keyword k)))
     = fst (isKeyword keyword k)
  /\ cachedKeywords (snd (isKeyword keyword (snd (isKeyword keyword k))))
     = cachedKeywords (snd (isKeyword keyword k)).
Proof.
  destruct (cachedKeywords k !! keyword) as [known|] eqn:Hk.
  - rewrite !(isKeyword_hit _ _ _ Hk). simpl.
    rewrite !(isKeyword_hit _ _ _ Hk). simpl. rewrite Hk.
    split; [| done]. split; [by intros -> | by intros [= ->]].
  - destruct (getEngineByAlias keyword) as [engine|] eqn:Ha.
    + rewrite !(isKeyword_alias _ _ _ Hk Ha). simpl.
      rewrite (isKeyword_hit keyword true) by (simpl; apply lookup_insert_eq).
      simpl. by rewrite lookup_insert_eq.
    + rewrite !(isKeyword_miss _ _ Hk Ha). simpl.
      rewrite isKeyword_miss by done. simpl. rewrite Hk.
      split; [| done]. split; discriminate.
Qed.

Lemma outstanding_remove keyword i k :
  fetching k !! i = Some keyword ->
  S (length (filter (fun x => x = keyword) (remove_nth i (fetching k))))
  = outstanding keyword k.
Proof.
  intros Hi. unfold outstanding, remove_nth.
  rewrite <- (take_drop_middle _ _ _ Hi) at 3.
  rewrite !filter_app, !length_app, filter_cons_True by done. simpl. lia.
Qed.

(** X2: when a lookup of a keyword settles, the next call of [isKeyword]
    for that keyword answers what the lookup found, and issues no lookup;
    one lookup fewer of the keyword is under way. *)
Theorem lookup_settles (keyword : jsstring) (i : nat) (found : bool)
    (k : Keywords) :
  fetching k !! i = Some keyword ->
  isKeyword keyword (resolve_fetch i found k)
  = (found, resolve_fetch i found k)
  /\ S (outstanding keyword (resolve_fetch i found k))
     = outstanding keyword k.
Proof.
  intros Hi. unfold resolve_fetch. rewrite Hi. split.
  - apply isKeyword_hit. simpl. apply lookup_insert_eq.
  - by apply outstanding_remove.
Qed.

Lemma prefetch_commutes (rows : list jsstring) (keyword : jsstring)
    (known : bool) (cache : gmap jsstring bool) :
  keyword ∉ rows ->
  fold_left (fun c row => <[row := true]> c) rows (<[keyword := known]> cache)
  = <[keyword := known]>
      (fold_left (fun c row => <[row := true]> c) rows cache).
Proof.
  revert cache. induction rows as [|row rows IH]; intros cache Hnot; [done |].
  apply not_elem_of_cons in Hnot as [Hne Hnot]. simpl.
  rewrite <- IH by done. f_equal. by apply insert_insert_ne.
Qed.

(** X3: after the pre-fetch, [isKeyword] answers true for every
    pre-fetched keyword without asking the search service or the bookmarks;
    for any other keyword it behaves as it would have without the pre-fetch. *)
Theorem prefetch_warms (rows : list jsstring) (k : Keywords)
    (keyword : jsstring) :
  (keyword ∈ rows ->
   isKeyword keyword (prefetch rows k) = (true, prefetch rows k))
  /\ (keyword ∉ rows ->
      isKeyword keyword (prefetch rows k)
      = (fst (isKeyword keyword k), prefetch rows (snd (isKeyword keyword k)))).
Proof.
  split; intros Hin.
  - apply isKeyword_hit. rewrite prefetch_lookup.
    by rewrite bool_decide_eq_true_2.
  - assert (Hsame : cachedKeywords (prefetch rows k) !! keyword
                    = cachedKeywords k !! keyword).
    { rewrite prefetch_lookup. by rewrite bool_decide_eq_false_2. }
    destruct (cachedKeywords k !! keyword) as [known|] eqn:Hk.
    + rewrite (isKeyword_hit _ _ _ Hsame), (isKeyword_hit _ _ _ Hk). done.
    + destruct (getEngineByAlias keyword) as [engine|] eqn:Ha.
      * rewrite (isKeyword_alias _ _ _ Hsame Ha), (isKeyword_alias _ _ _ Hk Ha).
        unfold prefetch. simpl. by rewrite prefetch_commutes.
      * rewrite (isKeyword_miss _ _ Hsame Ha), (isKeyword_miss _ _ Hk Ha).
        done.
Qed.

(** *** willHandle and getTyped *)

Lemma first_word_all s : no_whitespace s = true -> first_word s = s.
Proof.
  unfold no_whitespace, first_word. rewrite negb_true_iff.
  induction s as [|c s IH]; simpl; [done |].
  rewrite orb_false_iff. intros [-> Hs]. simpl. f_equal. by apply IH.
Qed.

Lemma willHandle_keeps search k other known :
  cachedKeywords k !! other = Some known ->
  cachedKeywords (snd (willHandle search k)) !! other = Some known.
Proof.
  intros Hother. unfold willHandle.
  pose proof (isKeyword_keeps (first_word search) k other known Hother) as Hkw.
  destruct (isKeyword (first_word search) k) as [b k']. simpl in Hkw.
  destruct (no_space search); [| done].
  destruct (newURI search); [done |].
  by destruct (getBaseDomainFromHost search).
Qed.

(** X5: [willHandle] never changes an entry that the cache holds and starts
    at most one lookup, of the first word; when one of the parsers accepts
    the text it leaves the cache and the lookups alone; on text without
    whitespace that both parsers reject it answers what [isKeyword] says of
    the whole text. *)
Theorem willHandle_cache_effect (search : jsstring) (k : Keywords) :
  (forall other known,
      cachedKeywords k !! other = Some known ->
      cachedKeywords (snd (willHandle search k)) !! other = Some known)
  /\ (fetching (snd (willHandle search k)) = fetching k
      \/ fetching (snd (willHandle search k))
         = fetching k ++ [first_word search])
  /\ (no_space search = true ->
      is_Some (newURI search) \/ is_Some (getBaseDomainFromHost search) ->
      snd (willHandle search k) = k)
  /\ (no_whitespace search = true ->
      newURI search = None -> getBaseDomainFromHost search = None ->
      willHandle search k
      = (RetBool (fst (isKeyword search k)), snd (isKeyword search k))).
Proof.
  split; [intros other known; apply willHandle_keeps |].
  split; [| split].
  - unfold willHandle.
    assert (Hkw : fetching (snd (isKeyword (first_word search) k)) = fetching k
                  \/ fetching (snd (isKeyword (first_word search) k))
                     = fetching k ++ [first_word search]).
    { unfold isKeyword. destruct (cachedKeywords k !! _); [by left |].
      destruct (getEngineByAlias _); [by left | by right]. }
    destruct (isKeyword (first_word search) k) as [b k']. simpl in Hkw.
    destruct (no_space search); [| done].
    destruct (newURI search); [by left |].
    destruct (getBaseDomainFromHost search); [by left | done].
  - intros Hs Hparsed. destruct (newURI search) as [uri|] eqn:Hu.
    + by rewrite (willHandle_uri _ uri).
    + destruct Hparsed as [[? [=]] | [domain Hd]].
      by rewrite (willHandle_domain _ domain).
  - intros Hws Hu Hd. rewrite willHandle_keyword by (right; done).
    by rewrite first_word_all.
Qed.

Lemma piece_of_trim s : piece_of (trim s) s.
Proof.
  destruct (trim_split s) as (pre & post & Hs & _). by exists pre, post.
Qed.

Lemma typed_piece_of_value h : piece_of (getTyped h) (value h).
Proof.
  unfold getTyped. destruct (_ =? _)%nat; [| apply piece_of_trim].
  destruct (piece_of_trim (slice0 (selectionStart h) (value h)))
    as (pre & post & Hs).
  exists pre, (post ++ drop (selectionStart h) (value h)).
  rewrite <- (take_drop (selectionStart h) (value h)) at 1.
  unfold slice0 in Hs. rewrite Hs at 1. by rewrite <- !app_assoc.
Qed.

Lemma getTyped_length h : (length (getTyped h) <= length (value h))%nat.
Proof.
  destruct (typed_piece_of_value h) as (pre & post & Hv).
  rewrite Hv, !length_app. lia.
Qed.

Lemma getTyped_trimmed h : trimmed (getTyped h).
Proof. unfold getTyped. destruct (_ =? _)%nat; apply trim_trimmed. Qed.

(** X6: the typed text is a run of consecutive characters of the field
    value, so it is never longer than the field value; trimming it again
    changes nothing; and its first word, the one looked up as a keyword, is
    empty only when the typed text itself is empty. *)
Theorem getTyped_piece (h : Host) :
  piece_of (getTyped h) (value h)
  /\ (length (getTyped h) <= length (value h))%nat
  /\ trim (getTyped h) = getTyped h
  /\ (first_word (getTyped h) = [] <-> getTyped h = []).
Proof.
  split; [apply typed_piece_of_value |].
  split; [apply getTyped_length |].
  split; [apply trim_id, getTyped_trimmed |].
  destruct (getTyped_trimmed h) as [Hhead _].
  destruct (getTyped h) as [|c s]; [done |].
  unfold first_word. simpl. rewrite Hhead. simpl. done.
Qed.

(** *** The Enter key *)

Lemma keydown_enter_handled event st :
  keyCode event = DOM_VK_RETURN ->
  shiftKey event || ctrlKey event || metaKey event = false ->
  matchCount (host st) = 0%nat ->
  (searchStatus (host st) <= STATUS_SEARCHING)%nat ->
  truthy (fst (willHandle (getTyped (host st)) (keywords st))) = true ->
  keydown event st
  = set_keywords (snd (willHandle (getTyped (host st)) (keywords st))) st.
Proof.
  intros Hkey Hmod Hcount Hstatus Hhandled. unfold keydown.
  rewrite Hkey, Hmod, Hcount. simpl.
  destruct (Nat.leb_spec (searchStatus (host st)) STATUS_SEARCHING); [| lia].
  destruct (willHandle _ _) as [handled k]. simpl in *. by rewrite Hhandled.
Qed.

Lemma keydown_enter_results event st :
  keyCode event = DOM_VK_RETURN ->
  shiftKey event || ctrlKey event || metaKey event = false ->
  matchCount (host st) <> 0%nat
  \/ (STATUS_SEARCHING < searchStatus (host st))%nat ->
  keydown event st
  = if (selectedIndex (host st) =? targetIndex)%Z
    then mkState (set_selectedIndex (targetIndex - 1) (host st)) (vars st)
           (keywords st) (timers st)
           (calls st ++ [handleKeyNavigation DOM_VK_DOWN])
    else st.
Proof.
  intros Hkey Hmod Hresults. unfold keydown. rewrite Hkey, Hmod.
  assert ((matchCount (host st) =? 0)%nat
          && (searchStatus (host st) <=? STATUS_SEARCHING)%nat = false) as ->.
  { apply andb_false_iff. destruct Hresults as [Hc|Hs].
    - left. by apply Nat.eqb_neq.
    - right. by apply Nat.leb_gt. }
  done.
Qed.

Lemma keydown_modified event st :
  keyCode event = DOM_VK_RETURN ->
  shiftKey event || ctrlKey event || metaKey event = true ->
  keydown event st = st.
Proof. intros Hkey Hmod. unfold keydown. by rewrite Hkey, Hmod. Qed.

Lemma snoc_inj {A} (l : list A) (x y : A) : l ++ [x] = l ++ [y] -> x = y.
Proof. intros H. apply app_inv_head in H. by injection H. Qed.

(** The ways of the Enter key: held with a modifier; waiting; on text that
    the location bar handles; with results or after the search. *)
Lemma enter_cases event st :
  keyCode event = DOM_VK_RETURN ->
  shiftKey event || ctrlKey event || metaKey event = true
  \/ enter_waits event st
  \/ (shiftKey event || ctrlKey event || metaKey event = false
      /\ matchCount (host st) = 0%nat
      /\ (searchStatus (host st) <= STATUS_SEARCHING)%nat
      /\ truthy (fst (willHandle (getTyped (host st)) (keywords st))) = true)
  \/ (shiftKey event || ctrlKey event || metaKey event = false
      /\ (matchCount (host st) <> 0%nat
          \/ (STATUS_SEARCHING < searchStatus (host st))%nat)).
Proof.
  intros Hkey.
  destruct (shiftKey event || ctrlKey event || metaKey event) eqn:Hmod;
    [by left | right].
  destruct (decide (matchCount (host st) = 0%nat)) as [Hc|Hc];
    [| right; right; split; [done | by left]].
  destruct (le_lt_dec (searchStatus (host st)) STATUS_SEARCHING) as [Hs|Hs];
    [| right; right; split; [done | by right]].
  destruct (truthy (fst (willHandle (getTyped (host st)) (keywords st))))
    eqn:Hh; [right; left; done | left; done].
Qed.

(** X7: the key listener suppresses the default action exactly when Enter,
    without modifier, meets no results, a search that has not finished and
    text that [willHandle] rejects; and whatever the key, the listener calls
    into the browser at most once, either [preventDefault] or
    [handleKeyNavigation(DOM_VK_DOWN)], never [handleEnter] or
    [onTextEntered]. *)
Theorem keydown_suppresses (event : KeyEvent) (st : State) :
  (calls (keydown event st) = calls st ++ [preventDefault]
   <-> enter_waits event st)
  /\ (calls (keydown event st) = calls st
      \/ calls (keydown event st) = calls st ++ [preventDefault]
      \/ calls (keydown event st)
         = calls st ++ [handleKeyNavigation DOM_VK_DOWN]).
Proof.
  assert (Hquiet : calls (keydown event st) = calls st ->
                   ~ enter_waits event st ->
                   (calls (keydown event st) = calls st ++ [preventDefault]
                    <-> enter_waits event st)
                   /\ (calls (keydown event st) = calls st
                       \/ calls (keydown event st)
                          = calls st ++ [preventDefault]
                       \/ calls (keydown event st)
                          = calls st ++ [handleKeyNavigation DOM_VK_DOWN])).
  { intros Hsame Hnot. split; [| by left]. rewrite Hsame. split; [| done].
    intros Hc. symmetry in Hc. by apply snoc_ne in Hc. }
  destruct (keyCode event) eqn:Hkey;
    try (apply Hquiet;
         [unfold keydown; by rewrite Hkey | intros (Hkey' & _); congruence]).
  destruct (enter_cases event st Hkey)
    as [Hmod | [Hw | [(Hmod & Hc & Hs & Hh) | (Hmod & Hres)]]].
  - apply Hquiet; [by rewrite keydown_modified |].
    intros (_ & Hmod' & _). congruence.
  - rewrite keydown_enter_waits by done. simpl. split; [done | right; by left].
  - apply Hquiet; [by rewrite keydown_enter_handled |].
    intros (_ & _ & _ & _ & Hh'). congruence.
  - assert (Hnot : ~ enter_waits event st).
    { intros (_ & _ & Hc & Hs & _). destruct Hres; lia. }
    destruct (Z.eqb_spec (selectedIndex (host st)) targetIndex) as [Heq|Hne].
    + rewrite keydown_enter_results by done.
      rewrite (proj2 (Z.eqb_eq _ _) Heq). simpl.
      split; [| right; by right]. split; [| done].
      intros Hc. by apply snoc_inj in Hc.
    + apply Hquiet; [| done]. rewrite keydown_enter_results by done.
      by rewrite (proj2 (Z.eqb_neq _ _) Hne).
Qed.

(** X8: Enter without modifier, when there are results or the search has
    finished, suppresses nothing, schedules nothing and does not consult the
    keyword cache; if the auto-selected entry ([targetIndex]) is selected it
    steps the selection back by one and asks the controller to navigate
    down, once; otherwise it changes nothing. *)
Theorem enter_with_results (event : KeyEvent) (st : State) :
  keyCode event = DOM_VK_RETURN ->
  shiftKey event || ctrlKey event || metaKey event = false ->
  matchCount (host st) <> 0%nat
  \/ (STATUS_SEARCHING < searchStatus (host st))%nat ->
  vars (keydown event st) = vars st
  /\ keywords (keydown event st) = keywords st
  /\ timers (keydown event st) = timers st
  /\ (selectedIndex (host st) = targetIndex ->
      selectedIndex (host (keydown event st)) = 0
      /\ calls (keydown event st)
         = calls st ++ [handleKeyNavigation DOM_VK_DOWN])
  /\ (selectedIndex (host st) <> targetIndex -> keydown event st = st).
Proof.
  intros Hkey Hmod Hres. rewrite keydown_enter_results by done.
  destruct (Z.eqb_spec (selectedIndex (host st)) targetIndex) as [Heq|Hne];
    simpl; repeat split; try done.
Qed.

(** *** The wrapper and the Enter key together *)

Lemma auto_selects_checks orig st :
  auto_selects orig st = true ->
  selectedIndex (orig (host st)) < targetIndex
  /\ _matchCount (orig (host st)) <> 0%nat
  /\ truthy (fst (willHandle (getTyped (orig (host st))) (keywords st)))
     = false.
Proof.
  unfold auto_selects. rewrite !andb_true_iff, !negb_true_iff.
  intros [[Hidx Hcount] Hfree].
  split; [by apply Z.leb_gt |]. split; [by apply Nat.eqb_neq | done].
Qed.

Lemma auto_selects_state orig st :
  auto_selects orig st = true ->
  appendCurrentResult orig st
  = mkState (set_selectedIndex targetIndex (orig (host st)))
            (mkClosure false (getTyped (orig (host st)))
                       (value (orig (host st))))
            (snd (willHandle (getTyped (orig (host st))) (keywords st)))
            (if selectNext (vars st)
             then timers st ++ [mkTimer SelectedEnter None]
             else timers st)
            (calls st).
Proof.
  intros H. apply auto_selects_checks in H as (H1 & H2 & H3).
  by apply append_selects.
Qed.

Lemma auto_selects_not orig st :
  auto_selects orig st = false ->
  host (appendCurrentResult orig st) = orig (host st)
  /\ vars (appendCurrentResult orig st) = vars st
  /\ timers (appendCurrentResult orig st) = timers st
  /\ calls (appendCurrentResult orig st) = calls st.
Proof.
  unfold auto_selects, appendCurrentResult. simpl.
  destruct (targetIndex <=? _)%Z; [done |].
  destruct (_ =? 0)%nat; [done |].
  destruct (willHandle _ _) as [handled k]. simpl.
  by destruct (truthy handled).
Qed.

(** X9: when Enter had to wait and the next results-appended event
    selects, the wrapper selects [targetIndex], clears [selectNext] and
    defers [handleEnter(true)], so that the suppressed Enter commits the
    selected result; the fallback of the wait, when it runs with results in
    the controller, then changes nothing, and [onTextEntered] is not called. *)
Theorem enter_then_result (event : KeyEvent) (orig : Host -> Host)
    (st : State) :
  enter_waits event st ->
  auto_selects orig (keydown event st) = true ->
  matchCount (orig (host st)) <> 0%nat ->
  let entered := getTyped (host st) in
  let st1 := appendCurrentResult orig (keydown event st) in
  let st2 := run_task SelectedEnter st1 in
  selectedIndex (host st1) = targetIndex
  /\ selectNext (vars st1) = false
  /\ timers st1
     = timers st
       ++ [mkTimer (LoadSearch entered)
             (Some (div_by_length MAX_WAIT_FOR_RESULTS (length entered)));
           mkTimer SelectedEnter None]
  /\ calls st2 = calls st ++ [preventDefault; handleEnter true]
  /\ run_task (LoadSearch entered) st2 = st2.
Proof.
  intros Hw Hsel Hcount entered st1 st2. subst entered st1 st2.
  rewrite (auto_selects_state _ _ Hsel).
  rewrite keydown_enter_waits by done. simpl.
  rewrite <- !app_assoc. simpl. repeat split; try done.
  destruct (Nat.eqb_spec (matchCount (orig (host st))) 0); [done |].
  by rewrite andb_false_r.
Qed.

(** X10: [selectNext] outlives a wait that ends without commit.  When the
    user has changed the text by the time the fallback of an Enter wait
    runs, the fallback does nothing and [selectNext] stays set; the next
    results-appended event that selects then defers [handleEnter(true)],
    although Enter was pressed on other text. *)
Theorem stale_enter (event : KeyEvent) (change : Host -> Host) (st : State) :
  enter_waits event st ->
  getTyped (change (host st)) <> getTyped (host st) ->
  let st1 := set_host (change (host st))
               (set_timers (timers st) (keydown event st)) in
  let st2 := run_task (LoadSearch (getTyped (host st))) st1 in
  st2 = st1
  /\ selectNext (vars st2) = true
  /\ forall orig,
       auto_selects orig st2 = true ->
       selectNext (vars (appendCurrentResult orig st2)) = false
       /\ timers (appendCurrentResult orig st2)
          = timers st ++ [mkTimer SelectedEnter None]
       /\ calls (run_task SelectedEnter (appendCurrentResult orig st2))
          = calls st ++ [preventDefault; handleEnter true].
Proof.
  intros Hw Hchanged st1 st2. subst st1 st2.
  rewrite keydown_enter_waits by done. simpl.
  unfold JS.eqb. rewrite bool_decide_eq_false_2 by done. simpl.
  split; [done |]. split; [done |].
  intros orig Hsel. rewrite (auto_selects_state _ _ Hsel). simpl.
  by rewrite <- !app_assoc.
Qed.

Lemma getTyped_set_selectedIndex i h :
  getTyped (set_selectedIndex i h) = getTyped h.
Proof. done. Qed.

(** X11: when the wrapper returns, an entry at or above [targetIndex] is
    selected, or the list is empty, or [willHandle] accepts the typed text;
    the wrapper never lowers the selection index; when it selects it takes
    the snapshot from the window as the browser's routine left it, and when
    it does not it leaves the window, the closure variables, the queue and
    the calls as they were. *)
Theorem wrapper_postcondition (orig : Host -> Host) (st : State) :
  let st' := appendCurrentResult orig st in
  (targetIndex <= selectedIndex (host st')
   \/ _matchCount (host st') = 0%nat
   \/ truthy (fst (willHandle (getTyped (host st')) (keywords st))) = true)
  /\ selectedIndex (orig (host st)) <= selectedIndex (host st')
  /\ (auto_selects orig st = true ->
      selectedIndex (host st') = targetIndex
      /\ vars st' = mkClosure false (getTyped (orig (host st)))
                      (value (orig (host st)))
      /\ calls st' = calls st)
  /\ (auto_selects orig st = false ->
      host st' = orig (host st) /\ vars st' = vars st
      /\ timers st' = timers st /\ calls st' = calls st).
Proof.
  intros st'. subst st'. destruct (auto_selects orig st) eqn:Hsel.
  - pose proof (auto_selects_checks _ _ Hsel) as (Hidx & _ & _).
    rewrite (auto_selects_state _ _ Hsel). simpl.
    split; [by left |]. split; [lia |]. split; [done | discriminate].
  - destruct (auto_selects_not _ _ Hsel) as (Hh & Hv & Ht & Hc).
    rewrite Hh. split; [| split; [lia | split; [discriminate | done]]].
    unfold auto_selects in Hsel. rewrite !andb_false_iff in Hsel.
    rewrite !negb_false_iff in Hsel.
    destruct Hsel as [[Hidx | Hcount] | Hhandled].
    + left. by apply Z.leb_le.
    + right. left. by apply Nat.eqb_eq.
    + right. by right.
Qed.

Lemma set_selectedIndex_same h : set_selectedIndex (selectedIndex h) h = h.
Proof. by destruct h. Qed.

Lemma keydown_host event st :
  set_selectedIndex (selectedIndex (host st)) (host (keydown event st))
  = host st.
Proof.
  unfold keydown. destruct (keyCode event); try by destruct st as [[]].
  destruct (_ || _); [by destruct st as [[]] |].
  destruct (_ && _).
  - destruct (willHandle _ _) as [handled k].
    destruct (truthy handled); by destruct st as [[]].
  - destruct (_ =? _)%Z; by destruct st as [[]].
Qed.

(** X12: the key listener and the wrapper write nothing to the window but
    the selection index, so neither changes what [getTyped] reads; of the
    deferred callbacks only the restore after a vertical movement key writes
    to the window, and none of them changes the selection index. *)
Theorem handlers_frame (event : KeyEvent) (orig : Host -> Host) (t : Task)
    (st : State) :
  set_selectedIndex (selectedIndex (host st)) (host (keydown event st))
  = host st
  /\ getTyped (host (keydown event st)) = getTyped (host st)
  /\ set_selectedIndex (selectedIndex (orig (host st)))
       (host (appendCurrentResult orig st))
     = orig (host st)
  /\ getTyped (host (appendCurrentResult orig st)) = getTyped (orig (host st))
  /\ selectedIndex (host (run_task t st)) = selectedIndex (host st)
  /\ (t <> RestoreCompletion -> host (run_task t st) = host st).
Proof.
  assert (Hwrapper :
    set_selectedIndex (selectedIndex (orig (host st)))
      (host (appendCurrentResult orig st)) = orig (host st)).
  { destruct (auto_selects orig st) eqn:Hsel.
    - rewrite (auto_selects_state _ _ Hsel). simpl.
      by destruct (orig (host st)).
    - destruct (auto_selects_not _ _ Hsel) as (-> & _).
      apply set_selectedIndex_same. }
  split; [apply keydown_host |]. split.
  { rewrite <- (getTyped_set_selectedIndex (selectedIndex (host st))).
    by rewrite keydown_host. }
  split; [exact Hwrapper |]. split.
  { rewrite <- (getTyped_set_selectedIndex (selectedIndex (orig (host st)))).
    by rewrite Hwrapper. }
  split.
  - destruct t; simpl; [done | |]; by destruct (_ && _).
  - intros Ht. destruct t; simpl; [done | done |]. by destruct (_ && _).
Qed.

(** *** What every run keeps *)

Lemma appended_or_not e st :
  (exists orig, e = Appended orig /\ auto_selects orig st = true)
  \/ (forall orig, e = Appended orig -> auto_selects orig st = false).
Proof.
  destruct e as [orig | | | |]; try (right; intros ? [=]; done).
  destruct (auto_selects orig st) eqn:Hsel.
  - left. by exists orig.
  - right. by intros ? [= <-].
Qed.

Lemma step_snapshot_fits st e st' :
  step st e st' -> snapshot_fits (vars st) -> snapshot_fits (vars st').
Proof.
  intros Hstep Hfits. unfold snapshot_fits in *.
  destruct (appended_or_not e st) as [(orig & -> & Hsel) | Hquiet].
  - inversion Hstep; subst. rewrite auto_selects_state by done. simpl.
    apply getTyped_length.
  - destruct (step_keeps_snapshot st e st' Hstep Hquiet) as [Hs Hv].
    by rewrite Hs, Hv.
Qed.

(** X13: in every run, the remembered search text is never longer than the
    remembered field value (they start empty, and the wrapper stores the
    typed text together with the value it was cut from), so the restore
    after a vertical movement key always puts [selectionStart] inside the
    value it restores. *)
Theorem restored_caret_in_range (st0 st : State) (es : list Event) :
  snapshot_fits (vars st0) ->
  run st0 es st ->
  snapshot_fits (vars st)
  /\ (run_task RestoreCompletion st = st
      \/ (selectionStart (host (run_task RestoreCompletion st))
          <= length (value (host (run_task RestoreCompletion st))))%nat).
Proof.
  intros Hfits Hrun.
  assert (Hst : snapshot_fits (vars st)).
  { induction Hrun as [st | st e st' es st'' Hstep _ IH]; [done |].
    apply IH. by eapply step_snapshot_fits. }
  split; [done |]. simpl.
  destruct (_ && _); [right | by left]. simpl. exact Hst.
Qed.

Lemma div_by_length_bounds a n :
  Zpos a < 2 ^ 52 ->
  n <> O ->
  exists ms, div_by_length a n = Finite ms
             /\ (0 < ms)%Qc /\ (ms <= Q2Qc (inject_Z (Zpos a)))%Qc.
Proof.
  intros Ha Hn. destruct n as [|n]; [done |]. eexists. split; [done |].
  by apply binary64_div_bounds.
Qed.

(** X14: the wait after Enter on non-empty text is bounded: the delay handed
    to [defer] is positive and at most [MAX_WAIT_FOR_RESULTS] (350), which
    it reaches for a single character. *)
Theorem enter_wait_bounded (event : KeyEvent) (st : State) :
  enter_waits event st ->
  getTyped (host st) <> [] ->
  exists ms,
    last (timers (keydown event st))
    = Some (mkTimer (LoadSearch (getTyped (host st))) (Some (Finite ms)))
    /\ (0 < ms)%Qc
    /\ (ms <= Q2Qc (inject_Z 350))%Qc
    /\ (length (getTyped (host st)) = 1%nat -> ms = Q2Qc (inject_Z 350)).
Proof.
  intros Hw Htyped.
  assert (Hlen : length (getTyped (host st)) <> O).
  { by destruct (getTyped (host st)). }
  destruct (div_by_length_bounds MAX_WAIT_FOR_RESULTS _ ltac:(done) Hlen)
    as (ms & Hms & Hpos & Hle).
  exists ms. rewrite keydown_enter_waits by done. cbn [timers].
  rewrite last_snoc, Hms. split; [done |]. split; [done |]. split; [done |].
  intros H1. rewrite H1 in Hms.
  assert (H350 : div_by_length MAX_WAIT_FOR_RESULTS 1
                 = Finite (Q2Qc (inject_Z 350))).
  { cbn [div_by_length]. f_equal. apply Qc_is_canon. vm_compute.
    reflexivity. }
  congruence.
Qed.

Lemma step_keeps_delays st e st' :
  step st e st' ->
  Forall timer_as_scheduled (timers st) ->
  Forall timer_as_scheduled (timers st').
Proof.
  intros Hstep Hts. destruct Hstep as
    [st orig | st event | st i elapsed tm Htm Hdue | st change | st op].
  - destruct (auto_selects orig st) eqn:Hsel.
    + rewrite (auto_selects_state _ _ Hsel). simpl.
      destruct (selectNext (vars st)); [| done].
      apply Forall_app. split; [done |]. by apply Forall_singleton.
    + by destruct (auto_selects_not _ _ Hsel) as (_ & _ & -> & _).
  - unfold keydown. destruct (keyCode event); try done;
      try (apply Forall_app; split; [done |]; by apply Forall_singleton).
    destruct (_ || _); [done |]. destruct (_ && _).
    + destruct (willHandle _ _) as [handled k]. simpl.
      destruct (truthy handled); [done |]. simpl.
      apply Forall_app. split; [done |]. by apply Forall_singleton.
    + by destruct (_ =? _)%Z.
  - assert (Hrest : Forall timer_as_scheduled (remove_nth i (timers st))).
    { unfold remove_nth. apply Forall_app.
      split; [by apply Forall_take | by apply Forall_drop]. }
    destruct (task tm); simpl; [done | |]; by destruct (_ && _).
  - done.
  - done.
Qed.

(** X15: in every run that starts with an empty queue, each queued callback
    carries the delay it was scheduled with: none for the restore and for
    the deferred [handleEnter(true)], and [MAX_WAIT_FOR_RESULTS] divided by
    the length of its captured text for the fallback of an Enter wait. *)
Theorem timers_as_scheduled (st0 st : State) (es : list Event) :
  timers st0 = [] ->
  run st0 es st ->
  Forall timer_as_scheduled (timers st).
Proof.
  intros Hempty Hrun.
  assert (H0 : Forall timer_as_scheduled (timers st0)) by (by rewrite Hempty).
  clear Hempty.
  induction Hrun as [st | st e st' es st'' Hstep _ IH]; [done |].
  apply IH. by eapply step_keeps_delays.
Qed.

Lemma cache_step_keeps_entry op k keyword :
  is_Some (cachedKeywords k !! keyword) ->
  is_Some (cachedKeywords (cache_step op k) !! keyword).
Proof.
  intros [known Hk]. destruct op as [kw | i found | i | rows];
    cbn [cache_step].
  - exists known. by apply isKeyword_keeps.
  - unfold resolve_fetch. destruct (fetching k !! i); [| by exists known].
    simpl. unfold fetch_then. apply lookup_insert_is_Some'. by right.
  - by exists known.
  - rewrite prefetch_lookup. destruct (bool_decide _); [by eexists |].
    by exists known.
Qed.

Lemma step_keeps_entry st e st' keyword :
  step st e st' ->
  is_Some (cachedKeywords (keywords st) !! keyword) ->
  is_Some (cachedKeywords (keywords st') !! keyword).
Proof.
  intros Hstep [known Hk]. destruct Hstep as
    [st orig | st event | st i elapsed tm Htm Hdue | st change | st op].
  - exists known. unfold appendCurrentResult. simpl.
    destruct (targetIndex <=? _)%Z; [done |].
    destruct (_ =? 0)%nat; [done |].
    pose proof (willHandle_keeps (getTyped (orig (host st))) (keywords st)
                  keyword known Hk) as Hkept.
    destruct (willHandle _ _) as [handled k]. simpl in *.
    destruct (truthy handled); [done |]. simpl.
    by destruct (selectNext (vars st)).
  - exists known. unfold keydown. destruct (keyCode event); try done.
    destruct (_ || _); [done |]. destruct (_ && _).
    + pose proof (willHandle_keeps (getTyped (host st)) (keywords st)
                    keyword known Hk) as Hkept.
      destruct (willHandle _ _) as [handled k]. simpl in *.
      by destruct (truthy handled).
    + by destruct (_ =? _)%Z.
  - exists known. destruct (task tm); simpl; [done | |];
      by destruct (_ && _).
  - by exists known.
  - simpl. apply cache_step_keeps_entry. by exists known.
Qed.

(** X4: the keyword cache never forgets a keyword: whatever happens in a
    run (calls of [isKeyword] through the wrapper and the key listener,
    lookups that settle or fail, the pre-fetch), a keyword that has an entry
    keeps one. *)
Theorem cache_never_shrinks (st st' : State) (es : list Event)
    (keyword : jsstring) :
  run st es st' ->
  is_Some (cachedKeywords (keywords st) !! keyword) ->
  is_Some (cachedKeywords (keywords st') !! keyword).
Proof.
  induction 1 as [st | st e st' es st'' Hstep _ IH]; [done |].
  intros Hk. apply IH. by eapply step_keeps_entry.
Qed.

Lemma known_shortcut_handled typed k :
  cachedKeywords k !! first_word typed = Some true ->
  getBaseDomainFromHost typed <> Some [] ->
  snd (willHandle typed k) = k
  /\ truthy (fst (willHandle typed k)) = true.
Proof.
  intros Hk Hd. unfold willHandle. rewrite (isKeyword_hit _ _ _ Hk).
  destruct (no_space typed); [| done].
  destruct (newURI typed); [done |].
  destruct (getBaseDomainFromHost typed) as [domain|]; [| done].
  simpl. split; [done |]. apply negb_true_iff, bool_decide_eq_false_2.
  congruence.
Qed.

(** X16: typed text whose first word the cache knows as a keyword is left
    to the location bar: the wrapper does not select for it (it changes
    nothing beyond what the browser's routine did) and Enter is not made to
    wait (no Enter wait is queued, the closure variables and the cache stay
    as they are), provided the eTLD service does not return an empty base
    domain for the text. *)
Theorem known_shortcut_left_alone (event : KeyEvent) (orig : Host -> Host)
    (st : State) :
  (cachedKeywords (keywords st) !! first_word (getTyped (orig (host st)))
   = Some true ->
   getBaseDomainFromHost (getTyped (orig (host st))) <> Some [] ->
   appendCurrentResult orig st = set_host (orig (host st)) st)
  /\ (cachedKeywords (keywords st) !! first_word (getTyped (host st))
      = Some true ->
      getBaseDomainFromHost (getTyped (host st)) <> Some [] ->
      ~ enter_waits event st
      /\ vars (keydown event st) = vars st
      /\ keywords (keydown event st) = keywords st
      /\ (timers (keydown event st) = timers st
          \/ timers (keydown event st)
             = timers st ++ [mkTimer RestoreCompletion None])).
Proof.
  split; intros Hk Hd;
    destruct (known_shortcut_handled _ _ Hk Hd) as [Hsame Hhandled].
  - unfold appendCurrentResult. simpl.
    destruct (targetIndex <=? _)%Z; [done |].
    destruct (_ =? 0)%nat; [done |].
    destruct (willHandle _ _) as [handled k]. simpl in *.
    rewrite Hhandled, Hsame. by destruct st.
  - split; [intros (_ & _ & _ & _ & Hfree); congruence |].
    unfold keydown. destruct (keyCode event);
      try (split; [done |]; split; [done |]; by left);
      try (split; [done |]; split; [done |]; by right).
    destruct (_ || _); [split; [done |]; split; [done |]; by left |].
    destruct (_ && _).
    + destruct (willHandle _ _) as [handled k]. simpl in *.
      rewrite Hhandled, Hsame. split; [done |]. split; [done |]. by left.
    + destruct (_ =? _)%Z; (split; [done |]; split; [done |]; by left).
Qed.

(** X17: the first answer for an unknown keyword is a miss, the later one
    is right.  For text that the parsers do not take and whose first word
    is neither cached nor an alias, [willHandle] answers false and starts a
    lookup of the first word, whatever the bookmarks hold; once that lookup
    has settled, [willHandle] answers what the lookup found and starts no
    further lookup. *)
Theorem optimistic_miss (typed : jsstring) (found : bool) (k : Keywords) :
  cachedKeywords k !! first_word typed = None ->
  getEngineByAlias (first_word typed) = None ->
  no_space typed = false
  \/ (newURI typed = None /\ getBaseDomainFromHost typed = None) ->
  let k1 := snd (willHandle typed k) in
  let k2 := resolve_fetch (length (fetching k)) found k1 in
  willHandle typed k
  = (RetBool false, mkKeywords (cachedKeywords k)
                      (fetching k ++ [first_word typed]))
  /\ willHandle typed k2 = (RetBool found, k2)
  /\ fetching k2 = fetching k.
Proof.
  intros Hk Ha Hparsers k1 k2. subst k1 k2.
  rewrite (willHandle_keyword typed k Hparsers).
  rewrite (isKeyword_miss _ _ Hk Ha). simpl. split; [done |].
  unfold resolve_fetch. simpl. rewrite list_lookup_middle by done.
  rewrite remove_nth_snoc. split; [| done].
  rewrite willHandle_keyword by done.
  rewrite (isKeyword_hit _ found); [done |]. simpl. apply lookup_insert_eq.
Qed.

(** X18: a lookup that fails leaves no trace: the promise has no rejection
    handler, so the cache gets no entry for the keyword and the next call of
    [isKeyword] starts a new lookup. *)
Theorem failed_lookup_retried (keyword : jsstring) (k : Keywords) :
  cachedKeywords k !! keyword = None ->
  getEngineByAlias keyword = None ->
  let failed := cache_step (Rejects (length (fetching k)))
                  (snd (isKeyword keyword k)) in
  failed = k
  /\ isKeyword keyword failed
     = (false, mkKeywords (cachedKeywords k) (fetching k ++ [keyword])).
Proof.
  intros Hk Ha failed. subst failed.
  rewrite (isKeyword_miss _ _ Hk Ha). simpl. rewrite remove_nth_snoc.
  assert (Hback : mkKeywords (cachedKeywords k) (fetching k) = k)
    by (by destruct k).
  rewrite Hback. split; [done |]. by apply isKeyword_miss.
Qed.


End EnterSelects.

(** ** The properties at work on sample windows *)

Lemma sample_domains_nonempty h domain :
  sample_getBaseDomainFromHost h = Some domain -> domain <> [].
Proof.
  unfold sample_getBaseDomainFromHost.
  destruct (JS.eqb h (str "example.com/page")); [| discriminate].
  intros [= <-]. discriminate.
Defined.

(** C4, the claim as stated fails: with the caret inside ["cats"], after
    ["ca"], and nothing selected, the typed text is the whole ["cats"], not
    the text before the caret. *)
Lemma getTyped_caret_inside :
  getTyped (sample_host (str "cats") 2 2 0) = str "cats"
  /\ typed_at_caret (str "cats") 2 = str "ca"
  /\ getTyped (sample_host (str "cats") 2 2 0)
     <> typed_at_caret (str "cats") 2.
Proof. split; [reflexivity |]. split; [reflexivity | discriminate]. Qed.

(** C4, the amended claim at the inline completion ["ca|ts"]. *)
Lemma getTyped_selection_witness :
  getTyped (sample_host (str "cats") 2 4 0) = trim (str "ca")
  /\ trimmed (getTyped (sample_host (str "cats") 2 4 0)).
Proof.
  destruct (getTyped_selection (sample_host (str "cats") 2 4 0))
    as (Hend & _ & _ & Htrimmed).
  split; [apply Hend; reflexivity | exact Htrimmed].
Defined.

(** C3, the claim as stated fails: a URL with a tab in it has whitespace,
    yet no space, so the code parses it as a URI and returns the URI, where
    the decision order of the claim goes on to the shortcut check and
    answers false. *)
Lemma willHandle_tab :
  no_whitespace tabbed = false
  /\ truthy (fst (willHandle sample_newURI sample_getBaseDomainFromHost
                    sample_getEngineByAlias tabbed no_keywords)) = true
  /\ hostWillHandle sample_newURI sample_getBaseDomainFromHost
       sample_getEngineByAlias tabbed no_keywords = false.
Proof. split; [reflexivity |]. split; reflexivity. Qed.

(** C3, the amended claim with the sample services. *)
Lemma willHandle_decision_order_witness :
  willHandle sample_newURI sample_getBaseDomainFromHost
    weather_getEngineByAlias (str "http://example.com") no_keywords
  = (RetURI (str "http://example.com"), no_keywords)
  /\ willHandle sample_newURI sample_getBaseDomainFromHost
       weather_getEngineByAlias (str "example.com/page") no_keywords
     = (RetDomain (str "example.com"), no_keywords)
  /\ fst (willHandle sample_newURI sample_getBaseDomainFromHost
            weather_getEngineByAlias (str "weather") no_keywords)
     = RetBool true
  /\ fst (willHandle sample_newURI sample_getBaseDomainFromHost
            weather_getEngineByAlias (str "foo bar") no_keywords)
     = RetBool false.
Proof.
  destruct (willHandle_decision_order sample_newURI
              sample_getBaseDomainFromHost weather_getEngineByAlias
              (str "foo bar") no_keywords)
    as (_ & _ & _ & _ & _ & Hurl & _ & Hdomain & Hweather & Hfoo).
  split; [apply Hurl; reflexivity |].
  split; [apply Hdomain; reflexivity |].
  split; [rewrite (Hweather eq_refl eq_refl); reflexivity |].
  rewrite Hfoo. reflexivity.
Defined.

(** C5, the claim as stated fails: a second call for ["cats"] while the
    lookup of the first has not settled issues a second lookup. *)
Lemma second_lookup_issued :
  let k1 := snd (isKeyword sample_getEngineByAlias (str "cats") no_keywords) in
  let k2 := snd (isKeyword sample_getEngineByAlias (str "cats") k1) in
  fetching k1 = [str "cats"]
  /\ fetching k2 = [str "cats"; str "cats"]
  /\ outstanding (str "cats") k2 = 2%nat.
Proof. split; [reflexivity |]. split; reflexivity. Qed.

(** C5, the amended claim at three calls in a row. *)
Lemma isKeyword_lookups_witness :
  outstanding (str "cats")
    (cache_run sample_getEngineByAlias
       (replicate 3 (IsKeyword (str "cats"))) no_keywords) = 3%nat
  /\ fetching (snd (isKeyword sample_getEngineByAlias (str "cats")
                      (mkKeywords {[str "cats" := false]} []))) = [].
Proof.
  split.
  - destruct (isKeyword_lookups sample_getEngineByAlias (str "cats")
                no_keywords) as (_ & _ & Hmiss).
    destruct (Hmiss eq_refl eq_refl) as [_ Hn]. exact (Hn 3%nat).
  - destruct (isKeyword_lookups sample_getEngineByAlias (str "cats")
                (mkKeywords {[str "cats" := false]} [])) as (Hhit & _).
    apply Hhit. vm_compute. eauto.
Defined.

(** C6, the claim as stated fails: two lookups of ["cats"] are under way;
    the first settles without a bookmark and the cache holds [false]; the
    second settles with one and the cache holds [true]. *)
Lemma cached_value_overwritten :
  let ops := [IsKeyword (str "cats"); IsKeyword (str "cats");
              Settles 0 false] in
  cachedKeywords (cache_run sample_getEngineByAlias ops no_keywords)
    !! str "cats" = Some false
  /\ cachedKeywords
       (cache_run sample_getEngineByAlias (ops ++ [Settles 0 true])
          no_keywords)
       !! str "cats" = Some true.
Proof. split; vm_compute; reflexivity. Qed.

(** C6, the amended claim on a cache that holds [false] for ["cats"] while
    a lookup of it is still under way. *)
Lemma cached_value_kept_witness :
  let k := mkKeywords {[str "cats" := false]} [str "cats"] in
  let ops := [IsKeyword (str "cats"); Settles 0 false;
              Prefetched [str "dogs"]] in
  cachedKeywords k !! str "cats" = Some false
  /\ agrees sample_getEngineByAlias (str "cats") false ops k
  /\ cachedKeywords (cache_run sample_getEngineByAlias ops k) !! str "cats"
     = Some false.
Proof.
  intros k ops.
  assert (Hk : cachedKeywords k !! str "cats" = Some false)
    by (vm_compute; reflexivity).
  assert (Hops : agrees sample_getEngineByAlias (str "cats") false ops k).
  { simpl. split; [exact I |]. split; [reflexivity |].
    split; [| exact I]. intros Hin. apply list_elem_of_singleton in Hin.
    discriminate Hin. }
  split; [exact Hk |]. split; [exact Hops |].
  exact (proj1 (cached_value_kept sample_getEngineByAlias (str "cats") false
                  ops k Hk Hops)).
Defined.

(** C1 on a window where ["cats"] is typed and three results arrive. *)
Lemma auto_select_once_witness :
  let st := init_state (sample_host (str "cats") 4 4 0) no_keywords in
  let origs := [one_more_result; one_more_result] in
  selectedIndex (host st) = -1
  /\ _matchCount (one_more_result (host st)) = 1%nat
  /\ index_history sample_newURI sample_getBaseDomainFromHost
       sample_getEngineByAlias (one_more_result :: origs) st = [1; 1; 1]
  /\ transitions (-1)
       (index_history sample_newURI sample_getBaseDomainFromHost
          sample_getEngineByAlias (one_more_result :: origs) st) = 1%nat.
Proof.
  intros st origs.
  assert (Hkeep : Forall (fun o : Host -> Host =>
                            forall h, selectedIndex (o h) = selectedIndex h)
                         (one_more_result :: origs)).
  { repeat constructor. }
  destruct (auto_select_once sample_newURI sample_getBaseDomainFromHost
              sample_getEngineByAlias st one_more_result origs
              eq_refl (fun H => O_S _ (eq_sym H)) Hkeep eq_refl)
    as (_ & Hhistory & Honce & _).
  split; [reflexivity |]. split; [reflexivity |].
  split; [exact Hhistory | exact Honce].
Defined.

(** C2 on a window where Enter was pressed on ["cats"] and one result has
    arrived before the callback runs, and on one where none has. *)
Lemma enter_wait_callback_witness :
  let early := init_state (sample_host (str "cats") 4 4 1) no_keywords in
  let late := init_state (sample_host (str "cats") 4 4 0) no_keywords in
  run_task (LoadSearch (str "cats")) early = early
  /\ calls (run_task (LoadSearch (str "cats")) late) = [onTextEntered].
Proof.
  intros early late. split.
  - destruct (enter_wait_callback sample_newURI sample_getBaseDomainFromHost
                sample_getEngineByAlias sample_STATUS_SEARCHING (str "cats")
                early) as (_ & _ & _ & Harrived & _).
    apply Harrived. simpl. constructor.
  - destruct (enter_wait_callback sample_newURI sample_getBaseDomainFromHost
                sample_getEngineByAlias sample_STATUS_SEARCHING (str "cats")
                late) as (Hiff & _).
    apply Hiff. split; reflexivity.
Defined.



(** C8 from the inline completion ["ca|ts"]: the first result arrives and is
    selected, the user presses left and then down. *)
Lemma navigation_revert_witness :
  let st := appendCurrentResult sample_newURI sample_getBaseDomainFromHost
              sample_getEngineByAlias one_more_result
              (init_state (sample_host (str "cats") 2 4 0) no_keywords) in
  let st1 := keydown sample_newURI sample_getBaseDomainFromHost
               sample_getEngineByAlias sample_STATUS_SEARCHING left_key st in
  let st2 := after_key sample_newURI sample_getBaseDomainFromHost
               sample_getEngineByAlias sample_STATUS_SEARCHING down_key
               leave_popup st1 in
  vars st = mkClosure false (str "ca") (str "cats")
  /\ selectedIndex (host st) = 1
  /\ selectedIndex (host st1) = -1
  /\ value (host st2) = str "ca"
  /\ exists st3,
       step sample_newURI sample_getBaseDomainFromHost
         sample_getEngineByAlias sample_STATUS_SEARCHING st2
         (Fires 0 0%Qc) st3
       /\ value (host st3) = str "cats"
       /\ selectionStart (host st3) = 2%nat.
Proof.
  intros st st1 st2.
  destruct (navigation_revert sample_newURI sample_getBaseDomainFromHost
              sample_getEngineByAlias sample_STATUS_SEARCHING st left_key
              down_key leave_popup eq_refl eq_refl eq_refl eq_refl)
    as (Hleft & _ & _ & _ & Hrestore).
  split; [reflexivity |]. split; [reflexivity |]. split; [exact Hleft |].
  split; [reflexivity |].
  destruct (Hrestore eq_refl eq_refl) as (st3 & Hstep & Hvalue & Hstart & _).
  exists st3. split; [exact Hstep |]. split; [exact Hvalue | exact Hstart].
Defined.

(** C9, the claim as stated fails: Enter in an empty location bar is
    suppressed; the user types ["cats"] and presses Enter again, which is
    suppressed too; no result is appended, and after 100 ms the fallback of
    the second wait (87.5 ms) runs: [selectNext] is cleared and
    [onTextEntered] commits, without any results-appended event. *)
Lemma enter_consumed_without_results :
  let st0 := init_state (sample_host [] 0 0 0) no_keywords in
  let es := [KeyDown enter_key; Browser type_cats; KeyDown enter_key;
             Fires 1 (Q2Qc (inject_Z 100))] in
  enter_waits sample_newURI sample_getBaseDomainFromHost
    sample_getEngineByAlias sample_STATUS_SEARCHING enter_key st0
  /\ getTyped (host st0) = []
  /\ (forall e orig, e ∈ es -> e <> Appended orig)
  /\ exists st,
       run sample_newURI sample_getBaseDomainFromHost sample_getEngineByAlias
         sample_STATUS_SEARCHING st0 es st
       /\ selectNext (vars st) = false
       /\ calls st = [preventDefault; preventDefault; onTextEntered]
       /\ timers st = [mkTimer (LoadSearch []) (Some PosInfinity)].
Proof.
  intros st0 es. split; [repeat split; reflexivity |].
  split; [reflexivity |]. split.
  { intros e orig Hin. subst es. set_unfold in Hin.
    destruct Hin as [-> | [-> | [-> | [-> | []]]]]; discriminate. }
  eexists. split.
  - eapply run_cons; [apply step_keydown |].
    eapply run_cons; [apply step_browser |].
    eapply run_cons; [apply step_keydown |].
    eapply run_cons; [| apply run_nil].
    eapply (step_fires _ _ _ _ _ 1%nat _
              (mkTimer (LoadSearch (str "cats"))
                 (Some (div_by_length MAX_WAIT_FOR_RESULTS 4)))).
    + reflexivity.
    + vm_compute. discriminate.
  - split; [reflexivity |]. split; reflexivity.
Qed.

(** C9, the amended claim on Enter in an empty location bar, followed by a
    first result. *)
Lemma enter_on_empty_text_witness :
  let st := init_state (sample_host [] 0 0 0) no_keywords in
  let st1 := keydown sample_newURI sample_getBaseDomainFromHost
               sample_getEngineByAlias sample_STATUS_SEARCHING enter_key st in
  let st2 := appendCurrentResult sample_newURI sample_getBaseDomainFromHost
               sample_getEngineByAlias one_more_result st1 in
  enter_waits sample_newURI sample_getBaseDomainFromHost
    sample_getEngineByAlias sample_STATUS_SEARCHING enter_key st
  /\ getTyped (host st) = []
  /\ calls st1 = [preventDefault]
  /\ timers st1 = [mkTimer (LoadSearch []) (Some PosInfinity)]
  /\ selectNext (vars st1) = true
  /\ selectNext (vars st2) = false.
Proof.
  intros st st1 st2.
  assert (Hw : enter_waits sample_newURI sample_getBaseDomainFromHost
                 sample_getEngineByAlias sample_STATUS_SEARCHING enter_key st).
  { repeat split; reflexivity. }
  destruct (enter_on_empty_text sample_newURI sample_getBaseDomainFromHost
              sample_getEngineByAlias sample_STATUS_SEARCHING enter_key st
              Hw eq_refl)
    as (Hcalls & Hnext & _ & _ & Htimers & _ & Hconsumed).
  split; [exact Hw |]. split; [reflexivity |]. split; [exact Hcalls |].
  split; [exact Htimers |]. split; [exact Hnext |].
  exact (proj1 (Hconsumed one_more_result eq_refl)).
Defined.

(** C10 on a window where a URL is typed, a result arrives (and is not
    selected, as the location bar handles URLs), and the user presses down. *)
Lemma restore_before_any_selection_witness :
  let st0 := init_state (sample_host (str "http://a.b") 10 10 0) no_keywords in
  let st := appendCurrentResult sample_newURI sample_getBaseDomainFromHost
              sample_getEngineByAlias one_more_result st0 in
  vars st0 = init_closure
  /\ run_unselected sample_newURI sample_getBaseDomainFromHost
       sample_getEngineByAlias sample_STATUS_SEARCHING st0
       [Appended one_more_result] st
  /\ exists st',
       step sample_newURI sample_getBaseDomainFromHost
         sample_getEngineByAlias sample_STATUS_SEARCHING
         (after_key sample_newURI sample_getBaseDomainFromHost
            sample_getEngineByAlias sample_STATUS_SEARCHING down_key
            leave_popup st)
         (Fires 0 0%Qc) st'
       /\ value (host st') = []
       /\ selectionStart (host st') = 0%nat.
Proof.
  intros st0 st.
  assert (Hrun : run_unselected sample_newURI sample_getBaseDomainFromHost
                   sample_getEngineByAlias sample_STATUS_SEARCHING st0
                   [Appended one_more_result] st).
  { eapply run_unselected_cons.
    - apply step_appended.
    - intros orig [= <-]. reflexivity.
    - apply run_unselected_nil. }
  split; [reflexivity |]. split; [exact Hrun |].
  exact (proj2 (proj2 (restore_before_any_selection sample_newURI
           sample_getBaseDomainFromHost sample_getEngineByAlias
           sample_STATUS_SEARCHING st0 st [Appended one_more_result] down_key
           leave_popup eq_refl Hrun eq_refl eq_refl eq_refl))).
Defined.

(** ** The further properties at work on sample windows *)

(** X2 on the lookup that a first call for ["cats"] starts. *)
Lemma lookup_settles_witness :
  let k := snd (isKeyword sample_getEngineByAlias (str "cats") no_keywords) in
  fetching k !! 0%nat = Some (str "cats")
  /\ isKeyword sample_getEngineByAlias (str "cats") (resolve_fetch 0 true k)
     = (true, resolve_fetch 0 true k).
Proof.
  intros k. split; [reflexivity |].
  exact (proj1 (lookup_settles sample_getEngineByAlias (str "cats") 0 true k
                  eq_refl)).
Defined.

(** X3 on a pre-fetch of ["cats"]. *)
Lemma prefetch_warms_witness :
  isKeyword sample_getEngineByAlias (str "cats")
    (prefetch [str "cats"] no_keywords)
  = (true, prefetch [str "cats"] no_keywords).
Proof.
  apply (proj1 (prefetch_warms sample_getEngineByAlias [str "cats"]
                  no_keywords (str "cats"))).
  apply list_elem_of_singleton. reflexivity.
Defined.

(** X4 on a cache that holds [false] for ["cats"] when a lookup settles. *)
Lemma cache_never_shrinks_witness :
  let k := mkKeywords {[str "cats" := false]} [str "cats"] in
  let st := init_state (sample_host (str "cats") 4 4 0) k in
  let st' := set_keywords (resolve_fetch 0 true k) st in
  run sample_newURI sample_getBaseDomainFromHost sample_getEngineByAlias
    sample_STATUS_SEARCHING st [Cache (Settles 0 true)] st'
  /\ is_Some (cachedKeywords (keywords st) !! str "cats")
  /\ is_Some (cachedKeywords (keywords st') !! str "cats").
Proof.
  intros k st st'.
  assert (Hrun : run sample_newURI sample_getBaseDomainFromHost
                   sample_getEngineByAlias sample_STATUS_SEARCHING st
                   [Cache (Settles 0 true)] st').
  { eapply run_cons; [apply (step_cache _ _ _ _ st (Settles 0 true)) |].
    apply run_nil. }
  assert (Hk : is_Some (cachedKeywords (keywords st) !! str "cats"))
    by (exists false; reflexivity).
  split; [exact Hrun |]. split; [exact Hk |].
  exact (cache_never_shrinks sample_newURI sample_getBaseDomainFromHost
           sample_getEngineByAlias sample_STATUS_SEARCHING st st'
           [Cache (Settles 0 true)] (str "cats") Hrun Hk).
Defined.

(** X8 on Enter after the first result for ["cats"] was selected. *)
Lemma enter_with_results_witness :
  let st := appendCurrentResult sample_newURI sample_getBaseDomainFromHost
              sample_getEngineByAlias one_more_result
              (init_state (sample_host (str "cats") 4 4 0) no_keywords) in
  let st' := keydown sample_newURI sample_getBaseDomainFromHost
               sample_getEngineByAlias sample_STATUS_SEARCHING enter_key st in
  selectedIndex (host st) = targetIndex
  /\ matchCount (host st) <> 0%nat
  /\ selectedIndex (host st') = 0
  /\ calls st' = [handleKeyNavigation DOM_VK_DOWN].
Proof.
  intros st st'.
  assert (Hcount : matchCount (host st) <> 0%nat) by discriminate.
  destruct (enter_with_results sample_newURI sample_getBaseDomainFromHost
              sample_getEngineByAlias sample_STATUS_SEARCHING enter_key st
              eq_refl eq_refl (or_introl Hcount))
    as (_ & _ & _ & Hselected & _).
  split; [reflexivity |]. split; [exact Hcount |].
  exact (Hselected eq_refl).
Defined.

(** X9 on Enter after ["cats"] followed by the first result. *)
Lemma enter_then_result_witness :
  let st := init_state (sample_host (str "cats") 4 4 0) no_keywords in
  let st1 := appendCurrentResult sample_newURI sample_getBaseDomainFromHost
               sample_getEngineByAlias one_more_result
               (keydown sample_newURI sample_getBaseDomainFromHost
                  sample_getEngineByAlias sample_STATUS_SEARCHING enter_key
                  st) in
  enter_waits sample_newURI sample_getBaseDomainFromHost
    sample_getEngineByAlias sample_STATUS_SEARCHING enter_key st
  /\ selectedIndex (host st1) = targetIndex
  /\ calls (run_task SelectedEnter st1) = [preventDefault; handleEnter true]
  /\ run_task (LoadSearch (str "cats")) (run_task SelectedEnter st1)
     = run_task SelectedEnter st1.
Proof.
  intros st st1.
  assert (Hw : enter_waits sample_newURI sample_getBaseDomainFromHost
                 sample_getEngineByAlias sample_STATUS_SEARCHING enter_key st).
  { repeat split; reflexivity. }
  assert (Hcount : matchCount (one_more_result (host st)) <> 0%nat)
    by discriminate.
  destruct (enter_then_result sample_newURI sample_getBaseDomainFromHost
              sample_getEngineByAlias sample_STATUS_SEARCHING enter_key
              one_more_result st Hw eq_refl Hcount)
    as (Hidx & _ & _ & Hcalls & Hnoop).
  split; [exact Hw |]. split; [exact Hidx |].
  split; [exact Hcalls | exact Hnoop].
Defined.

(** X10 on Enter after ["cats"], after which the user types ["up"]. *)
Lemma stale_enter_witness :
  let st := init_state (sample_host (str "cats") 4 4 0) no_keywords in
  let typed_on (h : Host) :=
    set_selectionStart 6 (set_textValue (str "catsup") h) in
  let st1 := set_host (typed_on (host st))
               (set_timers (timers st)
                  (keydown sample_newURI sample_getBaseDomainFromHost
                     sample_getEngineByAlias sample_STATUS_SEARCHING
                     enter_key st)) in
  enter_waits sample_newURI sample_getBaseDomainFromHost
    sample_getEngineByAlias sample_STATUS_SEARCHING enter_key st
  /\ getTyped (typed_on (host st)) <> getTyped (host st)
  /\ run_task (LoadSearch (str "cats")) st1 = st1
  /\ selectNext (vars st1) = true
  /\ calls (run_task SelectedEnter
              (appendCurrentResult sample_newURI sample_getBaseDomainFromHost
                 sample_getEngineByAlias one_more_result st1))
     = [preventDefault; handleEnter true].
Proof.
  intros st typed_on st1.
  assert (Hw : enter_waits sample_newURI sample_getBaseDomainFromHost
                 sample_getEngineByAlias sample_STATUS_SEARCHING enter_key st).
  { repeat split; reflexivity. }
  assert (Hchanged : getTyped (typed_on (host st)) <> getTyped (host st))
    by discriminate.
  destruct (stale_enter sample_newURI sample_getBaseDomainFromHost
              sample_getEngineByAlias sample_STATUS_SEARCHING enter_key
              typed_on st Hw Hchanged) as (Hnoop & Hnext & Hlater).
  split; [exact Hw |]. split; [exact Hchanged |].
  split; [exact Hnoop |]. split; [reflexivity |].
  exact (proj2 (proj2 (Hlater one_more_result eq_refl))).
Defined.

(** X13 on the inline completion ["ca|ts"] when the first result arrives. *)
Lemma restored_caret_in_range_witness :
  let st0 := init_state (sample_host (str "cats") 2 4 0) no_keywords in
  let st := appendCurrentResult sample_newURI sample_getBaseDomainFromHost
              sample_getEngineByAlias one_more_result st0 in
  snapshot_fits (vars st0)
  /\ run sample_newURI sample_getBaseDomainFromHost sample_getEngineByAlias
       sample_STATUS_SEARCHING st0 [Appended one_more_result] st
  /\ vars st = mkClosure false (str "ca") (str "cats")
  /\ snapshot_fits (vars st).
Proof.
  intros st0 st.
  assert (H0 : snapshot_fits (vars st0)) by apply le_n.
  assert (Hrun : run sample_newURI sample_getBaseDomainFromHost
                   sample_getEngineByAlias sample_STATUS_SEARCHING st0
                   [Appended one_more_result] st).
  { eapply run_cons; [apply step_appended | apply run_nil]. }
  split; [exact H0 |]. split; [exact Hrun |]. split; [reflexivity |].
  exact (proj1 (restored_caret_in_range sample_newURI
                  sample_getBaseDomainFromHost sample_getEngineByAlias
                  sample_STATUS_SEARCHING st0 st [Appended one_more_result]
                  H0 Hrun)).
Defined.

(** X14 on Enter after ["c"], one character. *)
Lemma enter_wait_bounded_witness :
  let st := init_state (sample_host (str "c") 1 1 0) no_keywords in
  enter_waits sample_newURI sample_getBaseDomainFromHost
    sample_getEngineByAlias sample_STATUS_SEARCHING enter_key st
  /\ getTyped (host st) <> []
  /\ exists ms,
       last (timers (keydown sample_newURI sample_getBaseDomainFromHost
                       sample_getEngineByAlias sample_STATUS_SEARCHING
                       enter_key st))
       = Some (mkTimer (LoadSearch (str "c")) (Some (Finite ms)))
       /\ ms = Q2Qc (inject_Z 350).
Proof.
  intros st.
  assert (Hw : enter_waits sample_newURI sample_getBaseDomainFromHost
                 sample_getEngineByAlias sample_STATUS_SEARCHING enter_key st).
  { repeat split; reflexivity. }
  assert (Htyped : getTyped (host st) <> []) by discriminate.
  split; [exact Hw |]. split; [exact Htyped |].
  destruct (enter_wait_bounded sample_newURI sample_getBaseDomainFromHost
              sample_getEngineByAlias sample_STATUS_SEARCHING enter_key st
              Hw Htyped) as (ms & Hlast & _ & _ & H1).
  exists ms. split; [exact Hlast | apply H1; reflexivity].
Defined.

(** X15 on Enter after ["cats"] followed by the down key. *)
Lemma timers_as_scheduled_witness :
  let st0 := init_state (sample_host (str "cats") 4 4 0) no_keywords in
  let st1 := keydown sample_newURI sample_getBaseDomainFromHost
               sample_getEngineByAlias sample_STATUS_SEARCHING enter_key st0 in
  let st := keydown sample_newURI sample_getBaseDomainFromHost
              sample_getEngineByAlias sample_STATUS_SEARCHING down_key st1 in
  timers st0 = []
  /\ run sample_newURI sample_getBaseDomainFromHost sample_getEngineByAlias
       sample_STATUS_SEARCHING st0 [KeyDown enter_key; KeyDown down_key] st
  /\ length (timers st) = 2%nat
  /\ Forall timer_as_scheduled (timers st).
Proof.
  intros st0 st1 st.
  assert (Hrun : run sample_newURI sample_getBaseDomainFromHost
                   sample_getEngineByAlias sample_STATUS_SEARCHING st0
                   [KeyDown enter_key; KeyDown down_key] st).
  { eapply run_cons; [apply step_keydown |].
    eapply run_cons; [apply step_keydown | apply run_nil]. }
  split; [reflexivity |]. split; [exact Hrun |]. split; [reflexivity |].
  exact (timers_as_scheduled sample_newURI sample_getBaseDomainFromHost
           sample_getEngineByAlias sample_STATUS_SEARCHING st0 st
           [KeyDown enter_key; KeyDown down_key] eq_refl Hrun).
Defined.

(** X16 on ["weather today"] once the cache knows ["weather"]. *)
Lemma known_shortcut_left_alone_witness :
  let k := mkKeywords {[str "weather" := true]} [] in
  let st := init_state (sample_host (str "weather today") 13 13 0) k in
  appendCurrentResult sample_newURI sample_getBaseDomainFromHost
    sample_getEngineByAlias one_more_result st
  = set_host (one_more_result (host st)) st
  /\ ~ enter_waits sample_newURI sample_getBaseDomainFromHost
         sample_getEngineByAlias sample_STATUS_SEARCHING enter_key st.
Proof.
  intros k st.
  destruct (known_shortcut_left_alone sample_newURI
              sample_getBaseDomainFromHost sample_getEngineByAlias
              sample_STATUS_SEARCHING enter_key one_more_result st)
    as [Hwrapper Henter].
  split.
  - apply Hwrapper; [reflexivity | discriminate].
  - apply Henter; [reflexivity | discriminate].
Defined.

(** X17 on ["foo bar"] when a bookmark with keyword ["foo"] exists. *)
Lemma optimistic_miss_witness :
  let k1 := snd (willHandle sample_newURI sample_getBaseDomainFromHost
                   sample_getEngineByAlias (str "foo bar") no_keywords) in
  let k2 := resolve_fetch 0 true k1 in
  truthy (fst (willHandle sample_newURI sample_getBaseDomainFromHost
                 sample_getEngineByAlias (str "foo bar") no_keywords)) = false
  /\ fetching k1 = [str "foo"]
  /\ willHandle sample_newURI sample_getBaseDomainFromHost
       sample_getEngineByAlias (str "foo bar") k2 = (RetBool true, k2).
Proof.
  intros k1 k2.
  destruct (optimistic_miss sample_newURI sample_getBaseDomainFromHost
              sample_getEngineByAlias (str "foo bar") true no_keywords
              eq_refl eq_refl (or_introl eq_refl)) as (Hmiss & Hlater & _).
  split; [reflexivity |]. split; [reflexivity | exact Hlater].
Defined.

(** X18 on a lookup of ["cats"] that fails. *)
Lemma failed_lookup_retried_witness :
  let k := snd (isKeyword sample_getEngineByAlias (str "cats") no_keywords) in
  cache_step sample_getEngineByAlias (Rejects 0) k = no_keywords
  /\ fetching (snd (isKeyword sample_getEngineByAlias (str "cats")
                      (cache_step sample_getEngineByAlias (Rejects 0) k)))
     = [str "cats"].
Proof.
  intros k.
  destruct (failed_lookup_retried sample_getEngineByAlias (str "cats")
              no_keywords eq_refl eq_refl) as [Hback Hagain].
  split; [exact Hback |].
  exact (f_equal (fun r => fetching (snd r)) Hagain).
Defined.

